(** * clod sound-effects plugin: configuration resolution and event dispatch

    A shallow embedding of the opencode plugin of the repository (the full
    variant with [loadSoundPack], [buildConfigFromPack] and [toClodArg], and
    the simple variant [.opencode/plugin/sfx.ts]) together with the
    properties its description states about it.

    Layout:
    - [Str]: the string primitives the code calls ([startsWith], [endsWith],
      [slice], [split], [replace] with a replacement string);
    - the typed model: [SoundEntry], [SoundPack], [SoundConfig] as the
      TypeScript types declare them, [normalizePath], [buildConfigFromPack],
      [toClodArg] and the handlers over them, and [Simple], the handler of
      the simple variant;
    - [Dyn]: [loadSoundPack] with its file reads, and [buildConfigFromPack]
      run on an arbitrary parsed JSON document, where a property read can
      raise [TypeError];
    - [Typed]: when a parsed document is of the declared type [SoundPack];
    - the wording of the description where it differs from the code, and
      the packs of the examples;
    - facts about the primitives and the loops, and the link between the
      typed model and [Dyn];
    - the properties, each headed by the number of the claim it settles. *)

From Stdlib Require Import Ascii String.
From stdpp Require Import base strings gmap list pretty.

Local Open Scope string_scope.

(** ** String primitives

    A string is a sequence of code units; every primitive below is
    unit-wise, so the alphabet does not matter and [string] stands for it. *)
Module Str.

(** [ToBoolean] on a string: only the empty string is falsy. *)
Definition truthy (s : string) : bool := negb (String.eqb s "").

(** [s.startsWith(pre)] *)
Fixpoint startsWith (s pre : string) {struct pre} : bool :=
  match pre, s with
  | EmptyString, _ => true
  | String _ _, EmptyString => false
  | String a pre', String b s' => Ascii.eqb a b && startsWith s' pre'
  end.

(** [s.endsWith(suf)]: some suffix of [s] is [suf]. *)
Fixpoint endsWith (s suf : string) : bool :=
  String.eqb s suf ||
  match s with
  | EmptyString => false
  | String _ s' => endsWith s' suf
  end.

(** [s.slice(n)] for [0 <= n]: the string without its first [n] units. *)
Fixpoint slice (s : string) (n : nat) {struct n} : string :=
  match n, s with
  | O, _ => s
  | S _, EmptyString => EmptyString
  | S n', String _ s' => slice s' n'
  end.

(** [s.split(sep)] for a separator of one unit. *)
Fixpoint split (sep : ascii) (s : string) : list string :=
  match s with
  | EmptyString => [EmptyString]
  | String c s' =>
      if Ascii.eqb c sep then EmptyString :: split sep s'
      else match split sep s' with
           | [] => [String c EmptyString]
           | seg :: segs => String c seg :: segs
           end
  end.

(** The replacement text of [String.prototype.replace] when the second
    argument is a string and the pattern has no capture group:
    [$$] is a dollar sign, [$&] the matched text, [$`] the text before the
    match, [$'] the text after it; any other unit, and a dollar sign
    followed by anything else, stands for itself. *)
Fixpoint getSubstitution (matched before after replacement : string) : string :=
  match replacement with
  | EmptyString => EmptyString
  | String c tl =>
      if Ascii.eqb c "$" then
        match tl with
        | String d tl' =>
            if Ascii.eqb d "$" then String "$" (getSubstitution matched before after tl')
            else if Ascii.eqb d "&" then matched +:+ getSubstitution matched before after tl'
            else if Ascii.eqb d "`" then before +:+ getSubstitution matched before after tl'
            else if Ascii.eqb d "'" then after +:+ getSubstitution matched before after tl'
            else String c (getSubstitution matched before after tl)
        | EmptyString => String c EmptyString
        end
      else String c (getSubstitution matched before after tl)
  end.

(** [s.replace(/^~/, replacement)] *)
Definition replace_leading_tilde (s replacement : string) : string :=
  match s with
  | String c rest =>
      if Ascii.eqb c "~" then getSubstitution "~" "" rest replacement +:+ rest
      else s
  | EmptyString => s
  end.

(** The last element of [parts], [parts[parts.length - 1]]. *)
Definition last_part (parts : list string) : option string := last parts.

(** [parts.join(sep)], used to state what [split] returns. *)
Fixpoint join (sep : ascii) (parts : list string) : string :=
  match parts with
  | [] => EmptyString
  | [p] => p
  | p :: rest => p +:+ String sep (join sep rest)
  end.

(** [sep] occurs in [s]. *)
Fixpoint occurs (sep : ascii) (s : string) : bool :=
  match s with
  | EmptyString => false
  | String c s' => Ascii.eqb c sep || occurs sep s'
  end.

End Str.

(** ** The data model, as the TypeScript types declare it *)

(** [{ path: string }] *)
Record PathObject := { path : string }.

(** [type SoundEntry = string | { path: string }] *)
Inductive SoundEntry :=
| Bare (filename : string)
| Structured (o : PathObject).

(** [opencode?: { events?: Record<string, SoundEntry>; hooks?: ... }] *)
Record Opencode := {
  oc_events : option (gmap string SoundEntry);
  oc_hooks : option (gmap string SoundEntry)
}.

(** [type SoundPack]; an optional field that is absent is [None]. *)
Record SoundPack := {
  schema : option string;
  version : option Z;
  baseDir : option string;
  opencode : option Opencode;
  claude : option (gmap string (gmap string SoundEntry))
}.

Definition DEFAULT_BASE_DIR : string := "~/.claude/sounds".

(** [typeof entry === "string" ? entry : entry.path] *)
Definition rawPath (entry : SoundEntry) : string :=
  match entry with
  | Bare s => s
  | Structured o => path o
  end.

Definition normalizePath (baseDir : string) (entry : SoundEntry) : string :=
  let raw := rawPath entry in
  if negb (Str.truthy raw) then ""
  else if Str.startsWith raw "/" || Str.startsWith raw "~" then raw
  else if Str.endsWith baseDir "/" then baseDir +:+ raw
  else baseDir +:+ "/" +:+ raw.

(** ** Resolved mappings

    [events] and [hooks] are objects created by [{}] and filled by
    assignments [obj[key] = { path }].  Such an object has its own
    properties and a prototype slot: an assignment to the key ["__proto__"]
    goes through the accessor inherited from [Object.prototype] and replaces
    the prototype instead of creating an own property.  [proto = None] is
    the initial prototype [Object.prototype]. *)
Record Mapping := {
  own : gmap string PathObject;
  proto : option PathObject
}.

(** [{}] *)
Definition empty_mapping : Mapping := {| own := ∅; proto := None |}.

(** [obj[key] = value] *)
Definition assign (key : string) (value : PathObject) (obj : Mapping) : Mapping :=
  if decide (key = "__proto__")
  then {| own := own obj; proto := Some value |}
  else {| own := <[key := value]> (own obj); proto := proto obj |}.

(** [Object.keys(obj).length]: own properties only. *)
Definition keys_length (obj : Mapping) : nat := size (own obj).

(** [Object.entries(obj)]: the own properties, each once, in the
    enumeration order of the object.  The loops below do not depend on that
    order ([foldl_fill_entries], [simple_loop_any_order]). *)
Definition entries {A} (obj : gmap string A) : list (string * A) := map_to_list obj.

(** [obj[key]?.path]: the [path] of an own property; under the key
    ["__proto__"] the prototype object itself is read; every other inherited
    member (those of [Object.prototype], and the string [path] of a replaced
    prototype) has no [path] property. *)
Definition lookup_path (obj : Mapping) (key : string) : option string :=
  match own obj !! key with
  | Some value => Some (path value)
  | None => if decide (key = "__proto__") then path <$> proto obj else None
  end.

(** [type SoundConfig] *)
Record SoundConfig := {
  events : Mapping;
  hooks : Mapping
}.

(** One of the two loops of [buildConfigFromPack]:
    [for (const [key, entry] of Object.entries(section)) {
       const path = normalizePath(baseDir, entry);
       if (path) { obj[key] = { path }; } }] *)
Definition fill_step (baseDir : string) (obj : Mapping) (kv : string * SoundEntry) : Mapping :=
  let path := normalizePath baseDir kv.2 in
  if Str.truthy path then assign kv.1 {| path := path |} obj else obj.

Definition fill (baseDir : string) (section : option (gmap string SoundEntry)) : Mapping :=
  match section with
  | Some mapping => foldl (fill_step baseDir) empty_mapping (entries mapping)
  | None => empty_mapping
  end.

(** [pack?.opencode?.events] and [pack?.opencode?.hooks] *)
Definition pack_events (pack : option SoundPack) : option (gmap string SoundEntry) :=
  (pack ≫= opencode) ≫= oc_events.
Definition pack_hooks (pack : option SoundPack) : option (gmap string SoundEntry) :=
  (pack ≫= opencode) ≫= oc_hooks.

(** [pack?.baseDir || DEFAULT_BASE_DIR] *)
Definition pack_baseDir (pack : option SoundPack) : string :=
  match pack ≫= baseDir with
  | Some dir => if Str.truthy dir then dir else DEFAULT_BASE_DIR
  | None => DEFAULT_BASE_DIR
  end.

Definition buildConfigFromPack (pack : option SoundPack) : SoundConfig :=
  let baseDir := pack_baseDir pack in
  let events := fill baseDir (pack_events pack) in
  let hooks := fill baseDir (pack_hooks pack) in
  if decide (keys_length events = 0 ∧ keys_length hooks = 0)
  then {| events := assign "session.idle" {| path := DEFAULT_BASE_DIR +:+ "/mew.wav" |} events;
          hooks := hooks |}
  else {| events := events; hooks := hooks |}.

(** The configuration of a run without any pack. *)
Definition default_config : SoundConfig :=
  {| events := {| own := {[ "session.idle" := {| path := "~/.claude/sounds/mew.wav" |} ]};
                  proto := None |};
     hooks := empty_mapping |}.

(** ** Playback *)

(** A command handed to the shell of the host, word by word. *)
Definition command := list string.

(** [process?.env?.HOME || ""] *)
Definition home_of (HOME : option string) : string := default "" HOME.

(** [candidates.filter(Boolean)]: drops [undefined] and the empty string. *)
Definition filter_Boolean (candidates : list (option string)) : list string :=
  omap (λ c, c ≫= λ s, if Str.truthy s then Some s else None) candidates.

Definition toClodArg (HOME : option string) (fullPath : string) : string :=
  let home := home_of HOME in
  let prefixes :=
    filter_Boolean
      [ Some "~/.claude/sounds/";
        if Str.truthy home then Some (home +:+ "/.claude/sounds/") else None ] in
  match find (λ prefix, Str.startsWith fullPath prefix) prefixes with
  | Some prefix => Str.slice fullPath (String.length prefix)
  | None =>
      let parts := Str.split "/" fullPath in
      match Str.last_part parts with
      | Some seg => if Str.truthy seg then seg else fullPath
      | None => fullPath
      end
  end.

(** [playSound] of the full plugin: [$`clod sfx play ${arg} &`] with
    [arg = toClodArg(path)]. *)
Definition playSound (HOME : option string) (path : string) : command :=
  let arg := toClodArg HOME path in
  ["clod"; "sfx"; "play"; arg; "&"].

(** The handlers of the full plugin; each returns the commands it issues.
    [event] reads [soundConfig.events[event.type]], a hook handler reads
    [soundConfig.hooks[name]] under its own fixed name. *)
Definition event (HOME : option string) (soundConfig : SoundConfig) (event_type : string) : list command :=
  match lookup_path (events soundConfig) event_type with
  | Some path => if Str.truthy path then [playSound HOME path] else []
  | None => []
  end.

Definition hook (HOME : option string) (soundConfig : SoundConfig) (name : string) : list command :=
  match lookup_path (hooks soundConfig) name with
  | Some path => if Str.truthy path then [playSound HOME path] else []
  | None => []
  end.

Definition tool_execute_before HOME soundConfig := hook HOME soundConfig "tool.execute.before".
Definition tool_execute_after HOME soundConfig := hook HOME soundConfig "tool.execute.after".
Definition permission_ask HOME soundConfig := hook HOME soundConfig "permission.ask".
Definition chat_message HOME soundConfig := hook HOME soundConfig "chat.message".

(** ** The simple plugin, [.opencode/plugin/sfx.ts] *)
Module Simple.

(** [const soundConfig: SoundConfig = { "session.idle": { path: ... } }] *)
Definition soundConfig : gmap string PathObject :=
  {[ "session.idle" := {| path := "~/.claude/sounds/mew.wav" |} ]}.

(** [$`clod sfx play ${path}`] *)
Definition playSound (path : string) : command :=
  ["clod"; "sfx"; "play"; path].

(** The [event] handler over a configuration [config]:
    [for (const [key, value] of Object.entries(config)) {
       if (event.type === key) { void playSound(value.path); } }] *)
Definition event (config : gmap string PathObject) (event_type : string) : list command :=
  flat_map (λ kv : string * PathObject,
              if decide (event_type = kv.1) then [playSound (path kv.2)] else [])
           (entries config).

(** The handler the plugin returns: the loop over its own [soundConfig]. *)
Definition MyPlugin_event (event_type : string) : list command :=
  event soundConfig event_type.

End Simple.

(** [expandTilde]; [HOME] is [process?.env?.HOME]. *)
Definition expandTilde (HOME : option string) (p : string) : string :=
  if Str.startsWith p "~" then
    match HOME with
    | Some home => if Str.truthy home then Str.replace_leading_tilde p home else p
    | None => p
    end
  else p.

(** ** The code on an arbitrary parsed document

    [loadSoundPack] returns whatever [file.json()] parsed, cast to
    [SoundPack] without a check, so [buildConfigFromPack] can meet any JSON
    value where its type promises a string or an entry.  This module runs
    the same code on untyped values; a property read on [null] or
    [undefined], and a call of a method the value does not have, raise
    [TypeError]. *)
Module Dyn.

(** A parsed JSON document.  The fields of an object are listed in the
    order of [Object.entries]; numbers are only tested for truthiness and
    never computed with, and integers stand for them. *)
#[warnings="-register-all"]
Inductive json :=
| JNull
| JBool (b : bool)
| JNum (n : Z)
| JStr (s : string)
| JArr (items : list json)
| JObj (fields : list (string * json)).

(** A value of the language: [None] is [undefined]. *)
Abbreviation value := (option json).

(** What a call can throw: [TypeError] from a property read or a method
    call, the others from a file read. *)
Inductive exn := TypeError | ENOENT | EACCES | SyntaxError.

(** The outcome of a call: it returns [a], or throws [e]. *)
Inductive result (A : Type) :=
| Ok (a : A)
| Throw (e : exn).
Arguments Ok {A} a.
Arguments Throw {A} e.

#[global] Instance result_ret : MRet result := λ A a, Ok a.
#[global] Instance result_bind : MBind result := λ A B f r,
  match r with
  | Ok a => f a
  | Throw e => Throw e
  end.

(** [ToBoolean] *)
Definition truthy (v : value) : bool :=
  match v with
  | None | Some JNull => false
  | Some (JBool b) => b
  | Some (JNum n) => negb (n =? 0)%Z
  | Some (JStr s) => Str.truthy s
  | Some (JArr _) | Some (JObj _) => true
  end.

(** The first field named [key]. *)
Fixpoint field (key : string) (fields : list (string * json)) : value :=
  match fields with
  | [] => None
  | (k, v) :: rest => if decide (k = key) then Some v else field key rest
  end.

(** [j[key]] on a value that is neither [null] nor [undefined], for the
    keys the code reads ([baseDir], [opencode], [events], [hooks], [path])
    and the other field names of the pack: an own field of an object; no
    array, string, number or boolean, and no builtin prototype, has a
    member of one of these names. *)
Definition get (j : json) (key : string) : value :=
  match j with
  | JObj fields => field key fields
  | _ => None
  end.

(** [v.key] *)
Definition prop (v : value) (key : string) : result value :=
  match v with
  | None | Some JNull => Throw TypeError
  | Some j => Ok (get j key)
  end.

(** [v?.key] *)
Definition opt_prop (v : value) (key : string) : value :=
  match v with
  | None | Some JNull => None
  | Some j => get j key
  end.

(** [Object.entries(j)] for [j] neither [null] nor [undefined]: the fields
    of an object, the elements of an array and the units of a string under
    their indices, nothing for a number or a boolean. *)
Definition Object_entries (j : json) : list (string * json) :=
  match j with
  | JObj fields => fields
  | JArr items => imap (λ i item, (pretty i, item)) items
  | JStr s => imap (λ i c, (pretty i, JStr (String c EmptyString))) (list_ascii_of_string s)
  | JNull | JBool _ | JNum _ => []
  end.

Definition normalizePath (baseDir : json) (entry : json) : result string :=
  raw ← match entry with
        | JStr _ => Ok (Some entry)
        | _ => prop (Some entry) "path"
        end;
  if negb (truthy raw) then Ok ""
  else match raw with
       | Some (JStr raw) =>
           if Str.startsWith raw "/" || Str.startsWith raw "~" then Ok raw
           else match baseDir with
                | JStr baseDir =>
                    if Str.endsWith baseDir "/" then Ok (baseDir +:+ raw)
                    else Ok (baseDir +:+ "/" +:+ raw)
                | _ => Throw TypeError
                end
       | _ => Throw TypeError
       end.

(** The loop over [Object.entries(section)]; an exception ends it. *)
Fixpoint fill_loop (baseDir : json) (obj : Mapping) (es : list (string * json)) : result Mapping :=
  match es with
  | [] => Ok obj
  | (key, entry) :: rest =>
      path ← normalizePath baseDir entry;
      fill_loop baseDir (if Str.truthy path then assign key {| path := path |} obj else obj) rest
  end.

(** [if (section) { for (... of Object.entries(section)) ... }] *)
Definition fill (baseDir : json) (section : value) : result Mapping :=
  match section with
  | Some j => if truthy section then fill_loop baseDir empty_mapping (Object_entries j)
              else Ok empty_mapping
  | None => Ok empty_mapping
  end.

(** [pack] is the argument of the call, [JNull] for [null]. *)
Definition buildConfigFromPack (pack : json) : result SoundConfig :=
  let baseDir :=
    match opt_prop (Some pack) "baseDir" with
    | Some dir => if truthy (Some dir) then dir else JStr DEFAULT_BASE_DIR
    | None => JStr DEFAULT_BASE_DIR
    end in
  events ← fill baseDir (opt_prop (opt_prop (Some pack) "opencode") "events");
  hooks ← fill baseDir (opt_prop (opt_prop (Some pack) "opencode") "hooks");
  if decide (keys_length events = 0 ∧ keys_length hooks = 0)
  then Ok {| events := assign "session.idle" {| path := DEFAULT_BASE_DIR +:+ "/mew.wav" |} events;
             hooks := hooks |}
  else Ok {| events := events; hooks := hooks |}.

(** What [await Bun.file(path).json()] does for each path: it returns the
    parsed document, or throws ([ENOENT] for a missing file, [EACCES] for an
    unreadable one, [SyntaxError] for text that is not JSON). *)
Abbreviation filesystem := (string → result json).

(** [data && typeof data === "object"] *)
Definition is_object (data : json) : bool :=
  truthy (Some data) &&
  match data with
  | JNull | JArr _ | JObj _ => true
  | JBool _ | JNum _ | JStr _ => false
  end.

(** The body of the [try] block for one candidate: [Ok (Some data)] is the
    [return data], [Ok None] falls out of the block. *)
Definition try_candidate (HOME : option string) (fs : filesystem) (p : string) : result (option json) :=
  data ← fs (expandTilde HOME p);
  if is_object data then Ok (Some data) else Ok None.

(** Candidate [p] does not give a pack: reading it throws, or the parsed
    document is not an object. *)
Definition rejected (HOME : option string) (fs : filesystem) (p : string) : Prop :=
  ∀ data, fs (expandTilde HOME p) = Ok data → is_object data = false.

(** The result is the document, or [JNull] for [null]. *)
Fixpoint loadSoundPack (HOME : option string) (fs : filesystem) (paths : list string) : result json :=
  match paths with
  | [] => Ok JNull
  | p :: rest =>
      match try_candidate HOME fs p with
      | Ok (Some data) => Ok data
      | Ok None => loadSoundPack HOME fs rest
      | Throw _e => loadSoundPack HOME fs rest
      end
  end.

(** The first two statements of [MyPlugin]; [root] and [config] are
    [app.path.root] and [app.path.config]. *)
Definition candidates (root config : string) : list string :=
  [ root +:+ "/.opencode/soundpack.json";
    config +:+ "/soundpack.json";
    "~/.claude/soundpack.json" ].

Definition resolve (HOME : option string) (fs : filesystem) (paths : list string) : result SoundConfig :=
  pack ← loadSoundPack HOME fs paths;
  buildConfigFromPack pack.

End Dyn.

(** ** The final segment of a path

    The text after the last ["/"] of [s] (all of [s] when it has none),
    written without [split]. *)
Fixpoint final_segment (s : string) : string :=
  match s with
  | EmptyString => EmptyString
  | String _ s' => if Str.occurs "/" s then final_segment s' else s
  end.

(** What one entry contributes to a resolved mapping: the body of the loop
    of [buildConfigFromPack] without the assignment. *)
Definition resolved_entry (baseDir : string) (entry : SoundEntry) : option PathObject :=
  let path := normalizePath baseDir entry in
  if Str.truthy path then Some {| path := path |} else None.

(** ** Documents of the declared types

    [as_SoundPack doc] reads a parsed document at the type [SoundPack]: it
    is [Some pack] exactly when every field the type declares is absent or
    of its declared type.  An object has one value per key, so a field list
    with a repeated key stands for no object. *)
Module Typed.
Import Dyn.

Definition as_string (j : json) : option string :=
  match j with JStr s => Some s | _ => None end.

Definition as_number (j : json) : option Z :=
  match j with JNum n => Some n | _ => None end.

Definition as_SoundEntry (j : json) : option SoundEntry :=
  match j with
  | JStr s => Some (Bare s)
  | JObj fields =>
      match field "path" fields with
      | Some (JStr p) => Some (Structured {| path := p |})
      | _ => None
      end
  | _ => None
  end.

Definition as_fields {A} (as_item : json → option A) (fields : list (string * json)) : option (list (string * A)) :=
  mapM (λ kv, pair kv.1 <$> as_item kv.2) fields.

Definition as_Record {A} (as_item : json → option A) (j : json) : option (gmap string A) :=
  match j with
  | JObj fields =>
      if decide (NoDup fields.*1) then list_to_map <$> as_fields as_item fields else None
  | _ => None
  end.

Definition as_optional {A} (as_item : json → option A) (v : value) : option (option A) :=
  match v with
  | None => Some None
  | Some j => Some <$> as_item j
  end.

Definition as_Opencode (j : json) : option Opencode :=
  match j with
  | JObj _ =>
      evs ← as_optional (as_Record as_SoundEntry) (get j "events");
      hks ← as_optional (as_Record as_SoundEntry) (get j "hooks");
      Some {| oc_events := evs; oc_hooks := hks |}
  | _ => None
  end.

Definition as_SoundPack (j : json) : option SoundPack :=
  match j with
  | JObj _ =>
      sch ← as_optional as_string (get j "$schema");
      ver ← as_optional as_number (get j "version");
      dir ← as_optional as_string (get j "baseDir");
      oc ← as_optional as_Opencode (get j "opencode");
      cl ← as_optional (as_Record (as_Record as_SoundEntry)) (get j "claude");
      Some {| schema := sch; version := ver; baseDir := dir; opencode := oc; claude := cl |}
  | _ => None
  end.

End Typed.

(** ** What the description states, and example packs

    [described_argument] words the argument of the playback command as the
    description does; the packs and documents below are the inputs of the
    examples. *)

(** The argument as the description words it: the path without the prefix
    of the default sound directory (in its tilde form or expanded with the
    home directory) when it starts with it, and the final segment of the
    path otherwise. *)
Definition described_argument (HOME : option string) (fullPath : string) : string :=
  let home := home_of HOME in
  if Str.startsWith fullPath "~/.claude/sounds/"
  then Str.slice fullPath (String.length "~/.claude/sounds/")
  else if Str.truthy home && Str.startsWith fullPath (home +:+ "/.claude/sounds/")
  then Str.slice fullPath (String.length (home +:+ "/.claude/sounds/"))
  else final_segment fullPath.

(** [pack] with another [claude] section. *)
Definition with_claude (section : option (gmap string (gmap string SoundEntry))) (pack : SoundPack) : SoundPack :=
  {| schema := schema pack; version := version pack; baseDir := baseDir pack;
     opencode := opencode pack; claude := section |}.

(** [pack] without its [baseDir] field. *)
Definition without_baseDir (pack : SoundPack) : SoundPack :=
  {| schema := schema pack; version := version pack; baseDir := None;
     opencode := opencode pack; claude := claude pack |}.

(** The pack [{baseDir: "/snd", opencode: {events: {"session.idle": "mew.wav"}}}],
    as a value of [SoundPack] and as the parsed document. *)
Definition snd_pack : SoundPack :=
  {| schema := None; version := None; baseDir := Some "/snd";
     opencode := Some {| oc_events := Some {[ "session.idle" := Bare "mew.wav" ]};
                         oc_hooks := None |};
     claude := None |}.

Definition snd_document : Dyn.json :=
  Dyn.JObj [ ("baseDir", Dyn.JStr "/snd");
             ("opencode", Dyn.JObj [ ("events", Dyn.JObj [ ("session.idle", Dyn.JStr "mew.wav") ]) ]) ].

(** A pack whose entries all have an empty raw path. *)
Definition silent_pack : SoundPack :=
  {| schema := None; version := None; baseDir := None;
     opencode := Some {| oc_events := Some {[ "session.idle" := Bare "" ]};
                         oc_hooks := Some {[ "chat.message" := Structured {| path := "" |} ]} |};
     claude := None |}.

(** The pack [{opencode: {events: {"session.idle": ""}}}]. *)
Definition muted_idle_pack : SoundPack :=
  {| schema := None; version := None; baseDir := None;
     opencode := Some {| oc_events := Some {[ "session.idle" := Bare "" ]}; oc_hooks := None |};
     claude := None |}.

(** The pack [{opencode: {events: {"foo": {path: ""}}}}]. *)
Definition foo_pack : SoundPack :=
  {| schema := None; version := None; baseDir := None;
     opencode := Some {| oc_events := Some {[ "foo" := Structured {| path := "" |} ]};
                         oc_hooks := None |};
     claude := None |}.

(** The pack [{opencode: {events: {"session.idle": "/snd/"}}}]. *)
Definition directory_pack : SoundPack :=
  {| schema := None; version := None; baseDir := None;
     opencode := Some {| oc_events := Some {[ "session.idle" := Bare "/snd/" ]}; oc_hooks := None |};
     claude := None |}.

(** A pack with an empty [baseDir] and a relative entry. *)
Definition empty_baseDir_pack : SoundPack :=
  {| schema := None; version := None; baseDir := Some "";
     opencode := Some {| oc_events := Some {[ "session.idle" := Bare "purr.wav" ]};
                         oc_hooks := None |};
     claude := None |}.

(** The pack [{opencode: {events: {"__proto__": "hiss.wav"}}}] and its
    document. *)
Definition proto_pack : SoundPack :=
  {| schema := None; version := None; baseDir := None;
     opencode := Some {| oc_events := Some {[ "__proto__" := Bare "hiss.wav" ]}; oc_hooks := None |};
     claude := None |}.

Definition proto_document : Dyn.json :=
  Dyn.JObj [ ("opencode", Dyn.JObj [ ("events", Dyn.JObj [ ("__proto__", Dyn.JStr "hiss.wav") ]) ]) ].

(** A [claude] section for the examples. *)
Definition example_claude : gmap string (gmap string SoundEntry) :=
  {[ "Stop" := {[ "*" := Bare "stop.wav" ]} ]}.

(** A file system for the examples: the project has no pack, the pack of
    the user configuration parses to a string, the pack under the home
    directory is the ["/snd"] document. *)
Definition example_fs : Dyn.filesystem := λ file,
  if decide (file = "/proj/.opencode/soundpack.json") then Dyn.Throw Dyn.ENOENT
  else if decide (file = "/cfg/soundpack.json") then Dyn.Ok (Dyn.JStr "mew.wav")
  else if decide (file = "/home/u/.claude/soundpack.json") then Dyn.Ok snd_document
  else Dyn.Throw Dyn.ENOENT.

(** The document [{"opencode": {"events": {"session.idle": null}}}]. *)
Definition null_entry_document : Dyn.json :=
  Dyn.JObj [ ("opencode", Dyn.JObj [ ("events", Dyn.JObj [ ("session.idle", Dyn.JNull) ]) ]) ].

Definition null_entry_fs : Dyn.filesystem := λ file,
  if decide (file = "/home/u/.claude/soundpack.json") then Dyn.Ok null_entry_document
  else Dyn.Throw Dyn.ENOENT.

(** ** The plugin as a whole, and closed forms of what it computes *)

(** The table of handlers [MyPlugin] returns.  A handler ignores the
    payloads it is called with (the hooks) or reads only [event.type] (the
    event handler), so each is given by the commands one call issues. *)
Record Hooks := {
  on_event : string → list command;
  on_tool_execute_before : list command;
  on_tool_execute_after : list command;
  on_permission_ask : list command;
  on_chat_message : list command
}.

(** [MyPlugin] of the full plugin; [root] and [config] are [app.path.root]
    and [app.path.config]. *)
Definition MyPlugin (HOME : option string) (fs : Dyn.filesystem) (root config : string) : Dyn.result Hooks :=
  soundConfig ← Dyn.resolve HOME fs (Dyn.candidates root config);
  Dyn.Ok {| on_event := event HOME soundConfig;
            on_tool_execute_before := tool_execute_before HOME soundConfig;
            on_tool_execute_after := tool_execute_after HOME soundConfig;
            on_permission_ask := permission_ask HOME soundConfig;
            on_chat_message := chat_message HOME soundConfig |}.

(** A path that starts with ["/"] or ["~"]: the test of [normalizePath]. *)
Definition rooted (p : string) : bool :=
  Str.startsWith p "/" || Str.startsWith p "~".

(** The entries of a section that end up as own properties: those under a
    key other than ["__proto__"] whose normalized path is not empty. *)
Definition survivors (baseDir : string) (section : option (gmap string SoundEntry)) : gmap string PathObject :=
  omap (resolved_entry baseDir) (delete "__proto__" (default ∅ section)).

(** What the prototype slot ends up as: the entry under ["__proto__"]. *)
Definition replaced_proto (baseDir : string) (section : option (gmap string SoundEntry)) : option PathObject :=
  (section ≫= (.!! "__proto__")) ≫= resolved_entry baseDir.

(** [pack?.baseDir || DEFAULT_BASE_DIR] on a parsed document. *)
Definition document_baseDir (pack : Dyn.json) : Dyn.json :=
  match Dyn.opt_prop (Some pack) "baseDir" with
  | Some dir => if Dyn.truthy (Some dir) then dir else Dyn.JStr DEFAULT_BASE_DIR
  | None => Dyn.JStr DEFAULT_BASE_DIR
  end.

(** [pack?.opencode?.events] or [pack?.opencode?.hooks] on a parsed
    document. *)
Definition document_section (pack : Dyn.json) (name : string) : Dyn.value :=
  Dyn.opt_prop (Dyn.opt_prop (Some pack) "opencode") name.

(** [typeof entry === "string" ? entry : entry.path] for an entry other
    than [null]. *)
Definition raw_value (entry : Dyn.json) : Dyn.value :=
  match entry with
  | Dyn.JStr _ => Some entry
  | _ => Dyn.get entry "path"
  end.

(** The entries on which [normalizePath] raises: [null]; a raw path that
    is truthy and not a string; a non-empty raw path that is not rooted,
    when the base directory is not a string. *)
Definition raises (baseDir entry : Dyn.json) : bool :=
  match entry with
  | Dyn.JNull => true
  | _ =>
      match raw_value entry with
      | Some (Dyn.JStr raw) =>
          Str.truthy raw && negb (rooted raw)
          && match baseDir with Dyn.JStr _ => false | _ => true end
      | raw => Dyn.truthy raw
      end
  end.

(** ** Facts about the string primitives *)
Section StrFacts.

#[local] Arguments String.eqb : simpl never.
#[local] Arguments String.append !_ _ / : simpl nomatch.

Lemma truthy_true (s : string) : Str.truthy s = true ↔ s ≠ "".
Proof.
  unfold Str.truthy. destruct (String.eqb_spec s ""); simpl; split; congruence.
Qed.

Lemma truthy_false (s : string) : Str.truthy s = false ↔ s = "".
Proof.
  unfold Str.truthy. destruct (String.eqb_spec s ""); simpl; split; congruence.
Qed.

Lemma startsWith_app (pre rest : string) : Str.startsWith (pre +:+ rest) pre = true.
Proof.
  induction pre as [|a pre IH]; simpl; [done|].
  by rewrite Ascii.eqb_refl, IH.
Qed.

Lemma startsWith_inv (s pre : string) :
  Str.startsWith s pre = true → ∃ rest, s = pre +:+ rest.
Proof.
  revert s. induction pre as [|a pre IH]; intros s Hs; simpl in *.
  - by exists s.
  - destruct s as [|b s]; [done|].
    apply andb_true_iff in Hs as [Hab Hs].
    apply Ascii.eqb_eq in Hab as ->.
    destruct (IH _ Hs) as [rest ->]. by exists rest.
Qed.

Lemma endsWith_app (front suf : string) : Str.endsWith (front +:+ suf) suf = true.
Proof.
  induction front as [|a front IH]; simpl.
  - destruct suf as [|b suf]; [done|].
    apply orb_true_iff. left. by apply String.eqb_eq.
  - rewrite IH. apply orb_true_r.
Qed.

Lemma endsWith_inv (s suf : string) :
  Str.endsWith s suf = true → ∃ front, s = front +:+ suf.
Proof.
  induction s as [|a s IH]; simpl; intros Hs.
  - rewrite orb_false_r in Hs. apply String.eqb_eq in Hs as <-. by exists "".
  - apply orb_true_iff in Hs as [Hs|Hs].
    + apply String.eqb_eq in Hs as <-. by exists "".
    + destruct (IH Hs) as [front ->]. by exists (String a front).
Qed.

Lemma slice_app (pre rest : string) : Str.slice (pre +:+ rest) (String.length pre) = rest.
Proof. induction pre as [|a pre IH]; simpl; done. Qed.

Lemma app_cons (a : ascii) (s t : string) : String a s +:+ t = String a (s +:+ t).
Proof. reflexivity. Qed.

Lemma app_empty_l (s : string) : "" +:+ s = s.
Proof. reflexivity. Qed.

Lemma app_empty_r (s : string) : s +:+ "" = s.
Proof. induction s as [|a s IH]; simpl; congruence. Qed.

Lemma app_assoc' (a b c : string) : (a +:+ b) +:+ c = a +:+ b +:+ c.
Proof. induction a as [|x a IH]; simpl; congruence. Qed.

Lemma app_nonempty_r (a b : string) : b ≠ "" → a +:+ b ≠ "".
Proof. destruct a, b; simpl; congruence. Qed.

Lemma split_nonempty (sep : ascii) (s : string) : Str.split sep s ≠ [].
Proof.
  destruct s as [|c s]; simpl; [done|].
  destruct (Ascii.eqb c sep); [done|]. by destruct (Str.split sep s).
Qed.

(** [split] cuts at every separator and nowhere else. *)
Lemma join_split (sep : ascii) (s : string) : Str.join sep (Str.split sep s) = s.
Proof.
  induction s as [|c s IH]; simpl; [done|].
  destruct (Ascii.eqb_spec c sep) as [->|Hne].
  - pose proof (split_nonempty sep s) as Hn.
    destruct (Str.split sep s) as [|seg segs]; [done|].
    simpl in *. by rewrite IH.
  - pose proof (split_nonempty sep s) as Hn.
    destruct (Str.split sep s) as [|seg segs]; [done|].
    destruct segs as [|seg' segs]; simpl in *; by rewrite <- IH.
Qed.

Lemma split_no_sep (sep : ascii) (s seg : string) :
  seg ∈ Str.split sep s → Str.occurs sep seg = false.
Proof.
  revert seg. induction s as [|c s IH]; simpl; intros seg Hin.
  - apply list_elem_of_singleton in Hin as ->. done.
  - destruct (Ascii.eqb_spec c sep) as [->|Hne].
    + apply elem_of_cons in Hin as [->|Hin]; [done|]. by apply IH.
    + pose proof (split_nonempty sep s) as Hn.
      destruct (Str.split sep s) as [|seg0 segs]; [done|].
      apply elem_of_cons in Hin as [->|Hin].
      * simpl. apply orb_false_iff. split.
        -- by apply Ascii.eqb_neq.
        -- apply IH. by left.
      * apply IH. by right.
Qed.

End StrFacts.

Section FinalSegment.

Lemma split_without_sep (sep : ascii) (s : string) :
  Str.occurs sep s = false → Str.split sep s = [s].
Proof.
  induction s as [|c s IH]; simpl; [done|].
  intros [Hc Hs]%orb_false_iff. by rewrite Hc, IH.
Qed.

Lemma split_with_sep (sep : ascii) (s : string) :
  Str.occurs sep s = true → ∃ seg seg' segs, Str.split sep s = seg :: seg' :: segs.
Proof.
  induction s as [|c s IH]; simpl; [done|].
  destruct (Ascii.eqb c sep) eqn:Hc; simpl.
  - intros _. pose proof (split_nonempty sep s).
    destruct (Str.split sep s) as [|seg' segs]; [done|]. eauto.
  - intros (seg & seg' & segs & ->)%IH. eauto.
Qed.

Lemma last_part_split (s : string) :
  Str.last_part (Str.split "/" s) = Some (final_segment s).
Proof.
  unfold Str.last_part. induction s as [|c s IH]; [done|].
  cbn [final_segment Str.split Str.occurs].
  destruct (Ascii.eqb c "/") eqn:Hc; cbn [orb].
  - pose proof (split_nonempty "/" s).
    destruct (Str.split "/" s) as [|seg segs]; done.
  - destruct (Str.occurs "/" s) eqn:Hs.
    + destruct (split_with_sep _ _ Hs) as (seg & seg' & segs & Heq).
      rewrite Heq in *. done.
    + by rewrite (split_without_sep _ _ Hs).
Qed.

Lemma final_segment_no_sep (s : string) : Str.occurs "/" (final_segment s) = false.
Proof.
  induction s as [|c s IH]; [done|].
  cbn [final_segment]. destruct (Str.occurs "/" (String c s)) eqn:Hs; done.
Qed.

(** [s] is its final segment behind a front that is empty or ends in ["/"]. *)
Lemma final_segment_decompose (s : string) :
  ∃ front, s = front +:+ final_segment s ∧ (front = "" ∨ Str.endsWith front "/" = true).
Proof.
  induction s as [|c s (front & Hs & Hfront)]; [by exists ""; auto|].
  cbn [final_segment]. destruct (Str.occurs "/" (String c s)) eqn:Hocc.
  - exists (String c front). split; [by rewrite app_cons, <- Hs|].
    right. destruct Hfront as [->|Hfront].
    + rewrite app_empty_l in Hs.
      cbn [Str.occurs] in Hocc.
      rewrite Hs, final_segment_no_sep, orb_false_r in Hocc.
      by apply Ascii.eqb_eq in Hocc as ->.
    + cbn [Str.endsWith]. rewrite Hfront. apply orb_true_r.
  - exists "". auto.
Qed.

End FinalSegment.

(** ** The loops of [buildConfigFromPack] in closed form *)
Section Fill.

Context (baseDir : string).

Lemma fill_step_resolved (obj : Mapping) (key : string) (entry : SoundEntry) :
  fill_step baseDir obj (key, entry) =
    match resolved_entry baseDir entry with
    | Some value => assign key value obj
    | None => obj
    end.
Proof. unfold fill_step, resolved_entry. simpl. by destruct (Str.truthy _). Qed.

Lemma own_assign_ne (obj : Mapping) (key k : string) (value : PathObject) :
  k ≠ key → own (assign key value obj) !! k = own obj !! k.
Proof.
  intros Hne. unfold assign. case_decide; simpl; [done|].
  by rewrite lookup_insert_ne.
Qed.

Lemma own_assign_eq (obj : Mapping) (key : string) (value : PathObject) :
  key ≠ "__proto__" → own (assign key value obj) !! key = Some value.
Proof.
  intros Hne. unfold assign. case_decide; simpl; [done|].
  by rewrite lookup_insert_eq.
Qed.

Lemma own_assign_proto_key (obj : Mapping) (key : string) (value : PathObject) :
  own (assign key value obj) !! "__proto__" = own obj !! "__proto__".
Proof.
  unfold assign. case_decide; simpl; [done|]. by rewrite lookup_insert_ne.
Qed.

Lemma proto_assign (obj : Mapping) (key : string) (value : PathObject) :
  proto (assign key value obj) = if decide (key = "__proto__") then Some value else proto obj.
Proof. unfold assign. by case_decide. Qed.

Lemma foldl_fill_own (l : list (string * SoundEntry)) (obj : Mapping) (k : string) :
  NoDup l.*1 → k ≠ "__proto__" →
  own (foldl (fill_step baseDir) obj l) !! k =
    match (list_to_map l : gmap string SoundEntry) !! k ≫= resolved_entry baseDir with
    | Some value => Some value
    | None => own obj !! k
    end.
Proof.
  revert obj. induction l as [|[k0 e0] l IH]; intros obj Hnd Hk.
  - change (list_to_map [] : gmap string SoundEntry) with (∅ : gmap string SoundEntry).
    by rewrite lookup_empty.
  - apply NoDup_cons in Hnd as [Hk0 Hnd].
    cbn [foldl]. rewrite list_to_map_cons, IH by done.
    rewrite fill_step_resolved. destruct (decide (k = k0)) as [->|Hne].
    + rewrite lookup_insert_eq. cbn [mbind option_bind].
      rewrite (not_elem_of_list_to_map_1 l k0) by done. cbn [mbind option_bind].
      destruct (resolved_entry baseDir e0); [by apply own_assign_eq|done].
    + rewrite lookup_insert_ne by done.
      destruct (_ ≫= _); [done|].
      destruct (resolved_entry baseDir e0); [by apply own_assign_ne|done].
Qed.

Lemma foldl_fill_own_proto_key (l : list (string * SoundEntry)) (obj : Mapping) :
  own (foldl (fill_step baseDir) obj l) !! "__proto__" = own obj !! "__proto__".
Proof.
  revert obj. induction l as [|[k0 e0] l IH]; intros obj; [done|].
  cbn [foldl]. rewrite IH, fill_step_resolved.
  destruct (resolved_entry baseDir e0); [apply own_assign_proto_key|done].
Qed.

Lemma foldl_fill_proto (l : list (string * SoundEntry)) (obj : Mapping) :
  NoDup l.*1 →
  proto (foldl (fill_step baseDir) obj l) =
    match (list_to_map l : gmap string SoundEntry) !! "__proto__" ≫= resolved_entry baseDir with
    | Some value => Some value
    | None => proto obj
    end.
Proof.
  revert obj. induction l as [|[k0 e0] l IH]; intros obj Hnd.
  - change (list_to_map [] : gmap string SoundEntry) with (∅ : gmap string SoundEntry).
    by rewrite lookup_empty.
  - apply NoDup_cons in Hnd as [Hk0 Hnd].
    cbn [foldl]. rewrite list_to_map_cons, IH by done.
    rewrite fill_step_resolved. destruct (decide (k0 = "__proto__")) as [->|Hne].
    + rewrite lookup_insert_eq. cbn [mbind option_bind].
      rewrite (not_elem_of_list_to_map_1 l "__proto__") by done. cbn [mbind option_bind].
      destruct (resolved_entry baseDir e0); [|done].
      rewrite proto_assign. by case_decide.
    + rewrite lookup_insert_ne by done.
      destruct (_ ≫= _); [done|].
      destruct (resolved_entry baseDir e0); [|done].
      rewrite proto_assign. by case_decide.
Qed.

(** The loop does not depend on the order of the entries. *)
Lemma foldl_fill_entries (l : list (string * SoundEntry)) :
  NoDup l.*1 →
  foldl (fill_step baseDir) empty_mapping l =
  foldl (fill_step baseDir) empty_mapping (entries (list_to_map l : gmap string SoundEntry)).
Proof.
  intros Hnd. unfold entries.
  set (m := list_to_map l : gmap string SoundEntry).
  pose proof (NoDup_fst_map_to_list m) as Hnd'.
  assert (Hm : (list_to_map (map_to_list m) : gmap string SoundEntry) = m)
    by apply list_to_map_to_list.
  destruct (foldl (fill_step baseDir) empty_mapping l) as [o1 p1] eqn:E1.
  destruct (foldl (fill_step baseDir) empty_mapping (map_to_list m)) as [o2 p2] eqn:E2.
  f_equal.
  - apply map_eq. intros k. destruct (decide (k = "__proto__")) as [->|Hk].
    + change o1 with (own {| own := o1; proto := p1 |}).
      change o2 with (own {| own := o2; proto := p2 |}).
      by rewrite <- E1, <- E2, !foldl_fill_own_proto_key.
    + change o1 with (own {| own := o1; proto := p1 |}).
      change o2 with (own {| own := o2; proto := p2 |}).
      rewrite <- E1, <- E2, !foldl_fill_own by done. by rewrite Hm.
  - change p1 with (proto {| own := o1; proto := p1 |}).
    change p2 with (proto {| own := o2; proto := p2 |}).
    rewrite <- E1, <- E2, !foldl_fill_proto by done. by rewrite Hm.
Qed.

Lemma fill_own (mapping : gmap string SoundEntry) (k : string) :
  k ≠ "__proto__" →
  own (fill baseDir (Some mapping)) !! k = mapping !! k ≫= resolved_entry baseDir.
Proof.
  intros Hk. unfold fill, entries.
  rewrite foldl_fill_own by (done || apply NoDup_fst_map_to_list).
  rewrite list_to_map_to_list. simpl. rewrite lookup_empty. by destruct (_ ≫= _).
Qed.

Lemma fill_own_proto_key (section : option (gmap string SoundEntry)) :
  own (fill baseDir section) !! "__proto__" = None.
Proof.
  destruct section as [mapping|]; [|done].
  unfold fill. by rewrite foldl_fill_own_proto_key.
Qed.

Lemma fill_proto (mapping : gmap string SoundEntry) :
  proto (fill baseDir (Some mapping)) = mapping !! "__proto__" ≫= resolved_entry baseDir.
Proof.
  unfold fill, entries.
  rewrite foldl_fill_proto by apply NoDup_fst_map_to_list.
  rewrite list_to_map_to_list. simpl. by destruct (_ ≫= _).
Qed.

End Fill.

(** ** The run on a document of the declared types

    On a document that reads as [pack : SoundPack] the untyped run raises
    nothing and returns what the typed function returns. *)
Section Conformance.
Import Typed.

Lemma normalizePath_typed (baseDir : string) (j : Dyn.json) (entry : SoundEntry) :
  as_SoundEntry j = Some entry →
  Dyn.normalizePath (Dyn.JStr baseDir) j = Dyn.Ok (normalizePath baseDir entry).
Proof.
  unfold Dyn.normalizePath, normalizePath.
  destruct j as [| | |s| |fields]; try done; cbn [as_SoundEntry].
  - intros [= <-]. cbn.
    destruct (Str.truthy s); [|done]. cbn.
    destruct (_ || _); [done|]. by destruct (Str.endsWith _ _).
  - destruct (Dyn.field "path" fields) as [[| | |p| |]|] eqn:Hp; try done.
    intros [= <-]. cbn. rewrite Hp. cbn.
    destruct (Str.truthy p); [|done]. cbn.
    destruct (_ || _); [done|]. by destruct (Str.endsWith _ _).
Qed.

Lemma as_fields_cons {A} (as_item : Dyn.json → option A) key j fields l :
  as_fields as_item ((key, j) :: fields) = Some l →
  ∃ item l', as_item j = Some item ∧ as_fields as_item fields = Some l' ∧ l = (key, item) :: l'.
Proof.
  unfold as_fields. cbn. intros H.
  destruct (as_item j) as [item|]; [|done]. cbn in H.
  destruct (mapM _ fields) as [l'|]; [|done]. cbn in H.
  injection H as <-. eauto.
Qed.

Lemma as_fields_keys {A} (as_item : Dyn.json → option A) fields l :
  as_fields as_item fields = Some l → l.*1 = fields.*1.
Proof.
  revert l. induction fields as [|[key j] fields IH]; intros l.
  - by intros [= <-].
  - intros (item & l' & _ & Hl' & ->)%as_fields_cons. cbn. f_equal. by apply IH.
Qed.

Lemma fill_loop_typed (baseDir : string) fields l (obj : Mapping) :
  as_fields as_SoundEntry fields = Some l →
  Dyn.fill_loop (Dyn.JStr baseDir) obj fields = Dyn.Ok (foldl (fill_step baseDir) obj l).
Proof.
  revert l obj. induction fields as [|[key j] fields IH]; intros l obj.
  - by intros [= <-].
  - intros (entry & l' & Hentry & Hl' & ->)%as_fields_cons.
    cbn [Dyn.fill_loop foldl]. rewrite (normalizePath_typed _ _ _ Hentry). cbn.
    by rewrite (IH _ _ Hl').
Qed.

Lemma fill_typed (baseDir : string) (v : Dyn.value) section :
  as_optional (as_Record as_SoundEntry) v = Some section →
  Dyn.fill (Dyn.JStr baseDir) v = Dyn.Ok (fill baseDir section).
Proof.
  destruct v as [j|]; cbn; [|by intros [= <-]].
  destruct j as [| | | | |fields]; try done. cbn.
  case_decide as Hnd; [|done].
  destruct (as_fields as_SoundEntry fields) as [l|] eqn:Hl; [|done].
  cbn. intros [= <-].
  rewrite (fill_loop_typed _ _ _ _ Hl). f_equal. unfold fill.
  apply foldl_fill_entries. by rewrite (as_fields_keys _ _ _ Hl).
Qed.

Lemma buildConfigFromPack_typed (doc : Dyn.json) (pack : SoundPack) :
  as_SoundPack doc = Some pack →
  Dyn.buildConfigFromPack doc = Dyn.Ok (buildConfigFromPack (Some pack)).
Proof.
  destruct doc as [| | | | |fields]; try done. cbn [as_SoundPack].
  intros H.
  destruct (as_optional as_string (Dyn.get (Dyn.JObj fields) "$schema")) as [sch|]; [|done].
  destruct (as_optional as_number (Dyn.get (Dyn.JObj fields) "version")) as [ver|]; [|done].
  destruct (as_optional as_string (Dyn.get (Dyn.JObj fields) "baseDir")) as [dir|] eqn:Hdir; [|done].
  destruct (as_optional as_Opencode (Dyn.get (Dyn.JObj fields) "opencode")) as [oc|] eqn:Hoc; [|done].
  destruct (as_optional _ (Dyn.get (Dyn.JObj fields) "claude")) as [cl|]; [|done].
  cbn in H. injection H as <-.
  unfold Dyn.buildConfigFromPack, buildConfigFromPack.
  cbn [Dyn.opt_prop].
  assert (Hbase : match Dyn.get (Dyn.JObj fields) "baseDir" with
                  | Some d => if Dyn.truthy (Some d) then d else Dyn.JStr DEFAULT_BASE_DIR
                  | None => Dyn.JStr DEFAULT_BASE_DIR
                  end = Dyn.JStr (pack_baseDir (Some {| schema := sch; version := ver;
                          baseDir := dir; opencode := oc; claude := cl |}))).
  { unfold pack_baseDir. cbn [Dyn.get] in *.
    destruct (Dyn.field "baseDir" fields) as [d|]; cbn in Hdir |- *.
    - destruct d; try done. cbn in Hdir. injection Hdir as <-.
      by destruct (Str.truthy s).
    - by injection Hdir as <-. }
  rewrite Hbase. clear Hbase Hdir.
  set (base := pack_baseDir _).
  assert (Hsec : ∀ name sel,
    (∀ j, Dyn.get (Dyn.JObj fields) "opencode" = Some j → ∀ o, as_Opencode j = Some o →
          as_optional (as_Record as_SoundEntry) (Dyn.get j name) = Some (sel o)) →
    Dyn.fill (Dyn.JStr base) (Dyn.opt_prop (Dyn.get (Dyn.JObj fields) "opencode") name)
    = Dyn.Ok (fill base (oc ≫= sel))).
  { intros name sel Hsel. destruct (Dyn.get (Dyn.JObj fields) "opencode") as [j|]; cbn in Hoc.
    - destruct (as_Opencode j) as [o|] eqn:Ho; [|done]. cbn in Hoc. injection Hoc as <-.
      assert (Dyn.opt_prop (Some j) name = Dyn.get j name) as ->
        by (destruct j; done).
      cbn [mbind option_bind]. apply fill_typed. by apply Hsel.
    - by injection Hoc as <-. }
  rewrite (Hsec "events" oc_events), (Hsec "hooks" oc_hooks).
  - cbn. unfold pack_events, pack_hooks. cbn. by case_decide.
  - intros j _ o. destruct j; try done. cbn.
    destruct (as_optional _ (Dyn.field "events" fields0)); [|done]. cbn.
    destruct (as_optional _ (Dyn.field "hooks" fields0)) eqn:E; [|done]. cbn.
    by intros [= <-].
  - intros j _ o. destruct j; try done. cbn.
    destruct (as_optional _ (Dyn.field "events" fields0)) eqn:E; [|done]. cbn.
    destruct (as_optional _ (Dyn.field "hooks" fields0)); [|done]. cbn.
    by intros [= <-].
Qed.

Lemma buildConfigFromPack_null :
  Dyn.buildConfigFromPack Dyn.JNull = Dyn.Ok (buildConfigFromPack None).
Proof. reflexivity. Qed.

Lemma buildConfigFromPack_none : buildConfigFromPack None = default_config.
Proof. reflexivity. Qed.

End Conformance.

(** ** Normalization of one entry *)
Section NormalizePath.

Lemma not_startsWith (p pre : string) :
  (∀ rest, p ≠ pre +:+ rest) → Str.startsWith p pre = false.
Proof.
  intros Hp. destruct (Str.startsWith p pre) eqn:E; [|done].
  destruct (startsWith_inv _ _ E) as [rest ->]. by destruct (Hp rest).
Qed.

Lemma not_endsWith (s suf : string) :
  (∀ front, s ≠ front +:+ suf) → Str.endsWith s suf = false.
Proof.
  intros Hs. destruct (Str.endsWith s suf) eqn:E; [|done].
  destruct (endsWith_inv _ _ E) as [front ->]. by destruct (Hs front).
Qed.

Lemma endsWith_false (s suf front : string) :
  Str.endsWith s suf = false → s ≠ front +:+ suf.
Proof. intros Hs ->. by rewrite endsWith_app in Hs. Qed.

Lemma startsWith_false (p pre rest : string) :
  Str.startsWith p pre = false → p ≠ pre +:+ rest.
Proof. intros Hp ->. by rewrite startsWith_app in Hp. Qed.

Lemma normalizePath_empty_iff (baseDir : string) (entry : SoundEntry) :
  normalizePath baseDir entry = "" ↔ rawPath entry = "".
Proof.
  unfold normalizePath. destruct (Str.truthy (rawPath entry)) eqn:E; cbn.
  - apply truthy_true in E. split; [|done]. intros H. exfalso.
    destruct (_ || _); [done|].
    destruct (Str.endsWith baseDir "/"); revert H; [by apply app_nonempty_r|].
    apply app_nonempty_r. by destruct (rawPath entry).
  - by apply truthy_false in E.
Qed.

Lemma resolved_entry_None (baseDir : string) (entry : SoundEntry) :
  resolved_entry baseDir entry = None ↔ rawPath entry = "".
Proof.
  unfold resolved_entry. rewrite <- (normalizePath_empty_iff baseDir).
  destruct (Str.truthy _) eqn:E; cbn.
  - apply truthy_true in E. split; [done|]. by intros ?.
  - by apply truthy_false in E.
Qed.

Lemma resolved_entry_Some (baseDir : string) (entry : SoundEntry) (value : PathObject) :
  resolved_entry baseDir entry = Some value →
  path value = normalizePath baseDir entry ∧ path value ≠ "".
Proof.
  unfold resolved_entry. destruct (Str.truthy _) eqn:E; [|done].
  intros [= <-]. split; [done|]. by apply truthy_true.
Qed.

End NormalizePath.

(** C3. A non-empty raw path [p] that starts with neither ["/"] nor ["~"] is
    joined to the base directory with one ["/"] between them: the result is
    [baseDir + p] when [baseDir] ends with ["/"] and [baseDir + "/" + p]
    otherwise; and the pack with [baseDir = "/snd"] and the event entry
    ["session.idle": "mew.wav"] resolves that event to ["/snd/mew.wav"]. *)
Theorem normalizePath_relative_joins_baseDir (baseDir : string) (entry : SoundEntry) (p : string) :
  rawPath entry = p →
  p ≠ "" →
  (∀ rest, p ≠ "/" +:+ rest) →
  (∀ rest, p ≠ "~" +:+ rest) →
  ((∃ stem, baseDir = stem +:+ "/") → normalizePath baseDir entry = baseDir +:+ p)
  ∧ ((∀ stem, baseDir ≠ stem +:+ "/") → normalizePath baseDir entry = baseDir +:+ "/" +:+ p)
  ∧ Typed.as_SoundPack snd_document = Some snd_pack
  ∧ Dyn.buildConfigFromPack snd_document = Dyn.Ok (buildConfigFromPack (Some snd_pack))
  ∧ own (events (buildConfigFromPack (Some snd_pack))) !! "session.idle"
    = Some {| path := "/snd/mew.wav" |}
  ∧ lookup_path (events (buildConfigFromPack (Some snd_pack))) "session.idle"
    = Some "/snd/mew.wav".
Proof.
  intros Hraw Hp Hslash Htilde.
  assert (Hnorm : normalizePath baseDir entry =
                  if Str.endsWith baseDir "/" then baseDir +:+ p else baseDir +:+ "/" +:+ p).
  { unfold normalizePath. rewrite Hraw.
    rewrite (proj2 (truthy_true p) Hp). cbn [negb].
    by rewrite (not_startsWith _ _ Hslash), (not_startsWith _ _ Htilde). }
  repeat split.
  - intros [stem ->]. by rewrite Hnorm, endsWith_app.
  - intros Hstem. by rewrite Hnorm, (not_endsWith _ _ Hstem).
Qed.

Lemma normalizePath_relative_joins_baseDir_witness :
  normalizePath "/snd" (Bare "mew.wav") = "/snd/mew.wav"
  ∧ normalizePath "/snd/" (Structured {| path := "mew.wav" |}) = "/snd/mew.wav".
Proof.
  split.
  - refine (proj1 (proj2 (normalizePath_relative_joins_baseDir
             "/snd" (Bare "mew.wav") "mew.wav" eq_refl _ _ _)) _).
    + discriminate.
    + intros rest. by apply startsWith_false.
    + intros rest. by apply startsWith_false.
    + intros stem. by apply endsWith_false.
  - refine (proj1 (normalizePath_relative_joins_baseDir
             "/snd/" (Structured {| path := "mew.wav" |}) "mew.wav" eq_refl _ _ _) _).
    + discriminate.
    + intros rest. by apply startsWith_false.
    + intros rest. by apply startsWith_false.
    + by exists "/snd".
Defined.

(** C4. A raw path that starts with ["/"] or with ["~"] is returned
    unchanged, whatever the base directory and whichever form the entry
    has. *)
Theorem normalizePath_absolute_or_tilde_verbatim (baseDir : string) (entry : SoundEntry) (rest : string) :
  rawPath entry = "/" +:+ rest ∨ rawPath entry = "~" +:+ rest →
  normalizePath baseDir entry = rawPath entry.
Proof.
  intros H. unfold normalizePath.
  assert (Hs : Str.startsWith (rawPath entry) "/" || Str.startsWith (rawPath entry) "~" = true).
  { destruct H as [-> | ->]; rewrite startsWith_app; [done|apply orb_true_r]. }
  assert (Ht : Str.truthy (rawPath entry) = true) by (by destruct H as [-> | ->]).
  by rewrite Ht, Hs.
Qed.

Lemma normalizePath_absolute_or_tilde_verbatim_witness :
  normalizePath "/snd" (Bare "/usr/share/ding.wav") = "/usr/share/ding.wav"
  ∧ normalizePath "/snd" (Structured {| path := "~/ding.wav" |}) = "~/ding.wav".
Proof.
  split.
  - apply (normalizePath_absolute_or_tilde_verbatim "/snd" (Bare "/usr/share/ding.wav")
             "usr/share/ding.wav"). by left.
  - apply (normalizePath_absolute_or_tilde_verbatim "/snd" (Structured {| path := "~/ding.wav" |})
             "/ding.wav"). by right.
Defined.

(** ** Lookups in a resolved configuration *)
Section Lookups.

(** As far as [obj[key]?.path] goes, the mapping a loop builds is the
    section with every entry normalized and the empty results left out. *)
Lemma lookup_path_fill (baseDir : string) (mapping : gmap string SoundEntry) (k : string) :
  lookup_path (fill baseDir (Some mapping)) k = path <$> (mapping !! k ≫= resolved_entry baseDir).
Proof.
  unfold lookup_path. destruct (decide (k = "__proto__")) as [->|Hk].
  - by rewrite fill_own_proto_key, fill_proto.
  - rewrite fill_own by done. by destruct (_ ≫= _).
Qed.

Lemma lookup_path_fill_None (baseDir : string) (k : string) :
  lookup_path (fill baseDir None) k = None.
Proof. unfold lookup_path. cbn. rewrite lookup_empty. by case_decide. Qed.

Lemma lookup_path_assign (obj : Mapping) (key k : string) (value : PathObject) :
  key ≠ "__proto__" →
  lookup_path (assign key value obj) k =
    if decide (k = key) then Some (path value) else lookup_path obj k.
Proof.
  intros Hkey. unfold lookup_path, assign. rewrite (decide_False _ _ Hkey). cbn [own proto].
  destruct (decide (k = key)) as [->|Hk].
  - by rewrite lookup_insert_eq.
  - by rewrite lookup_insert_ne.
Qed.

Lemma lookup_path_own_None (obj : Mapping) (k : string) :
  lookup_path obj k = None → own obj !! k = None.
Proof. unfold lookup_path. by destruct (own obj !! k). Qed.

Lemma keys_length_0 (obj : Mapping) : keys_length obj = 0 ↔ own obj = ∅.
Proof. unfold keys_length. apply map_size_empty_iff. Qed.

(** A section whose entries all have an empty raw path leaves [{}]. *)
Lemma fill_all_empty (baseDir : string) (section : option (gmap string SoundEntry)) :
  (∀ mapping k entry, section = Some mapping → mapping !! k = Some entry → rawPath entry = "") →
  fill baseDir section = empty_mapping.
Proof.
  intros Hall. destruct section as [mapping|]; [|done].
  assert (Hres : ∀ k, mapping !! k ≫= resolved_entry baseDir = None).
  { intros k. destruct (mapping !! k) as [entry|] eqn:Hk; [|done].
    cbn. apply resolved_entry_None. by eapply Hall. }
  destruct (fill baseDir (Some mapping)) as [o p] eqn:E. unfold empty_mapping. f_equal.
  - apply map_eq. intros k. rewrite lookup_empty.
    change o with (own {| own := o; proto := p |}). rewrite <- E.
    destruct (decide (k = "__proto__")) as [->|Hk].
    + apply fill_own_proto_key.
    + rewrite fill_own by done. apply Hres.
  - change p with (proto {| own := o; proto := p |}). rewrite <- E.
    rewrite fill_proto. apply Hres.
Qed.

End Lookups.

(** ** Loading the pack *)
Section Loading.

Context (HOME : option string) (fs : Dyn.filesystem).

Lemma loadSoundPack_all_rejected (paths : list string) :
  (∀ p, p ∈ paths → Dyn.rejected HOME fs p) →
  Dyn.loadSoundPack HOME fs paths = Dyn.Ok Dyn.JNull.
Proof.
  induction paths as [|p paths IH]; intros Hall; [done|].
  cbn [Dyn.loadSoundPack]. unfold Dyn.try_candidate.
  pose proof (Hall p ltac:(left)) as Hp. unfold Dyn.rejected in Hp.
  destruct (fs (expandTilde HOME p)) as [data|e]; cbn.
  - rewrite (Hp data eq_refl). apply IH. intros q Hq. apply Hall. by right.
  - apply IH. intros q Hq. apply Hall. by right.
Qed.

Lemma loadSoundPack_first_accepted (before after : list string) (p : string) (data : Dyn.json) :
  (∀ q, q ∈ before → Dyn.rejected HOME fs q) →
  fs (expandTilde HOME p) = Dyn.Ok data →
  Dyn.is_object data = true →
  Dyn.loadSoundPack HOME fs (before ++ p :: after)%list = Dyn.Ok data.
Proof.
  intros Hbefore Hp Hdata. induction before as [|q before IH].
  - cbn [app Dyn.loadSoundPack]. unfold Dyn.try_candidate. rewrite Hp. cbn. by rewrite Hdata.
  - cbn [app Dyn.loadSoundPack]. unfold Dyn.try_candidate.
    pose proof (Hbefore q ltac:(left)) as Hq. unfold Dyn.rejected in Hq.
    assert (IH' := IH (λ r Hr, Hbefore r ltac:(by right))).
    destruct (fs (expandTilde HOME q)) as [d|e]; cbn; [|done].
    by rewrite (Hq d eq_refl).
Qed.

Lemma loadSoundPack_returns (paths : list string) :
  ∃ pack, Dyn.loadSoundPack HOME fs paths = Dyn.Ok pack
          ∧ (pack = Dyn.JNull ∨ Dyn.is_object pack = true).
Proof.
  induction paths as [|p paths IH]; [by exists Dyn.JNull; auto|].
  cbn [Dyn.loadSoundPack]. unfold Dyn.try_candidate.
  destruct (fs (expandTilde HOME p)) as [data|e]; cbn; [|done].
  destruct (Dyn.is_object data) eqn:E; [|done]. exists data. auto.
Qed.

End Loading.

(** ** The default configuration *)

(** C1. When the two mappings are empty after the loops (for a pack as for
    no pack), [buildConfigFromPack] returns no hook and exactly one event,
    ["session.idle"] with the path ["~/.claude/sounds/mew.wav"].  That is
    so whenever every entry of both sections has an empty raw path, and for
    no pack at all; and when no candidate gives a pack, resolution returns
    this default configuration. *)
Theorem buildConfigFromPack_default_when_empty :
  (∀ pack,
     own (fill (pack_baseDir pack) (pack_events pack)) = ∅ →
     own (fill (pack_baseDir pack) (pack_hooks pack)) = ∅ →
     own (events (buildConfigFromPack pack))
       = {[ "session.idle" := {| path := "~/.claude/sounds/mew.wav" |} ]}
     ∧ own (hooks (buildConfigFromPack pack)) = ∅)
  ∧ (∀ pack,
       (∀ mapping k entry,
          pack_events pack = Some mapping → mapping !! k = Some entry → rawPath entry = "") →
       (∀ mapping k entry,
          pack_hooks pack = Some mapping → mapping !! k = Some entry → rawPath entry = "") →
       buildConfigFromPack pack = default_config)
  ∧ buildConfigFromPack None = default_config
  ∧ (∀ HOME fs paths,
       (∀ p, p ∈ paths → Dyn.rejected HOME fs p) →
       Dyn.resolve HOME fs paths = Dyn.Ok default_config)
  ∧ lookup_path (events default_config) "session.idle" = Some "~/.claude/sounds/mew.wav".
Proof.
  split; [|split; [|split; [|split]]].
  - intros pack Hevents Hhooks. unfold buildConfigFromPack. cbv zeta.
    rewrite decide_True by (by rewrite !keys_length_0).
    cbn [events hooks]. split; [|done].
    unfold assign. cbn. by rewrite Hevents.
  - intros pack Hevents Hhooks. unfold buildConfigFromPack. cbv zeta.
    by rewrite !fill_all_empty.
  - reflexivity.
  - intros HOME fs paths Hall. unfold Dyn.resolve.
    by rewrite loadSoundPack_all_rejected.
  - reflexivity.
Qed.

Lemma buildConfigFromPack_default_when_empty_witness :
  buildConfigFromPack (Some silent_pack) = default_config.
Proof.
  apply (proj1 (proj2 buildConfigFromPack_default_when_empty) (Some silent_pack)).
  - intros mapping k entry [= <-] [_ <-]%lookup_singleton_Some. reflexivity.
  - intros mapping k entry [= <-] [_ <-]%lookup_singleton_Some. reflexivity.
Defined.

(** ** Entries with an empty raw path *)

Section EmptyEntries.

Lemma lookup_path_fill_nonempty (baseDir : string) section (k p : string) :
  lookup_path (fill baseDir section) k = Some p → p ≠ "".
Proof.
  destruct section as [mapping|]; [|by rewrite lookup_path_fill_None].
  rewrite lookup_path_fill. destruct (mapping !! k) as [entry|]; [|done]. cbn.
  destruct (resolved_entry baseDir entry) as [value|] eqn:E; [|done].
  intros [= <-]. by apply (resolved_entry_Some _ _ _ E).
Qed.

Lemma lookup_path_fill_dropped (baseDir : string) mapping (k : string) (entry : SoundEntry) :
  mapping !! k = Some entry → rawPath entry = "" →
  lookup_path (fill baseDir (Some mapping)) k = None.
Proof.
  intros Hk Hraw. rewrite lookup_path_fill, Hk. cbn.
  by rewrite (proj2 (resolved_entry_None baseDir entry) Hraw).
Qed.

Lemma lookup_path_own (obj : Mapping) (k : string) (value : PathObject) :
  own obj !! k = Some value → lookup_path obj k = Some (path value).
Proof. unfold lookup_path. by intros ->. Qed.

End EmptyEntries.

(** C5, refuted as stated: the only entry of this pack, under
    ["session.idle"], has an empty raw path, and the resolved events still
    have the key ["session.idle"]: the default is put there. *)
Lemma empty_session_idle_entry_counterexample :
  pack_events (Some muted_idle_pack) = Some {[ "session.idle" := Bare "" ]}
  ∧ rawPath (Bare "") = ""
  ∧ own (events (buildConfigFromPack (Some muted_idle_pack))) !! "session.idle"
    = Some {| path := "~/.claude/sounds/mew.wav" |}
  ∧ lookup_path (events (buildConfigFromPack (Some muted_idle_pack))) "session.idle"
    = Some "~/.claude/sounds/mew.wav".
Proof. repeat split. Qed.

(** C5, amended.  An entry whose raw path is empty puts nothing into the
    resolved mappings: its key is absent from the mapping of its section,
    the one exception being the key ["session.idle"] of [events] when the
    default is put there because both mappings came out empty.  Every path
    found in [events] or [hooks] is a non-empty string.  The pack with
    [events["foo"] = {path: ""}] resolves to events without the key
    ["foo"]. *)
Theorem empty_entries_are_dropped (pack : option SoundPack) :
  let cfg := buildConfigFromPack pack in
  let mew := {| path := "~/.claude/sounds/mew.wav" |} in
  (∀ mapping k entry,
     pack_events pack = Some mapping → mapping !! k = Some entry → rawPath entry = "" →
     (own (events cfg) !! k = None ∧ lookup_path (events cfg) k = None)
     ∨ (k = "session.idle" ∧ own (events cfg) = {[ "session.idle" := mew ]}
        ∧ own (hooks cfg) = ∅))
  ∧ (∀ mapping k entry,
       pack_hooks pack = Some mapping → mapping !! k = Some entry → rawPath entry = "" →
       own (hooks cfg) !! k = None ∧ lookup_path (hooks cfg) k = None)
  ∧ (∀ k p, lookup_path (events cfg) k = Some p ∨ lookup_path (hooks cfg) k = Some p → p ≠ "")
  ∧ (∀ k value,
       own (events cfg) !! k = Some value ∨ own (hooks cfg) !! k = Some value →
       path value ≠ "")
  ∧ own (events (buildConfigFromPack (Some foo_pack))) !! "foo" = None
  ∧ lookup_path (events (buildConfigFromPack (Some foo_pack))) "foo" = None.
Proof.
  intros cfg mew.
  assert (Hpaths : ∀ k p,
            lookup_path (events cfg) k = Some p ∨ lookup_path (hooks cfg) k = Some p → p ≠ "").
  { subst cfg. unfold buildConfigFromPack. cbv zeta.
    intros k p. case_decide as Hinj; cbn [events hooks].
    - rewrite lookup_path_assign by done. case_decide as Hk.
      + intros [[= <-]|H]; [done|]. by eapply lookup_path_fill_nonempty.
      + intros [H|H]; by eapply lookup_path_fill_nonempty.
    - intros [H|H]; by eapply lookup_path_fill_nonempty. }
  split; [|split; [|split; [|split; [|split]]]].
  - subst cfg. unfold buildConfigFromPack. cbv zeta.
    intros mapping k entry Hsec Hk Hraw. rewrite Hsec.
    pose proof (lookup_path_fill_dropped (pack_baseDir pack) _ _ _ Hk Hraw) as Hdropped.
    case_decide as Hinj; cbn [events hooks].
    + destruct Hinj as [Hev Hhk].
      apply keys_length_0 in Hev. apply keys_length_0 in Hhk.
      destruct (decide (k = "session.idle")) as [->|Hne].
      * right. split; [done|]. split; [|done].
        unfold assign. rewrite decide_False by done. cbn [own].
        by rewrite Hev, insert_empty.
      * left. assert (Hl : lookup_path (assign "session.idle" mew
                             (fill (pack_baseDir pack) (Some mapping))) k = None).
        { rewrite lookup_path_assign by done. by rewrite decide_False. }
        split; [by apply lookup_path_own_None|done].
    + left. split; [by apply lookup_path_own_None|done].
  - subst cfg. unfold buildConfigFromPack. cbv zeta.
    intros mapping k entry Hsec Hk Hraw. rewrite Hsec.
    pose proof (lookup_path_fill_dropped (pack_baseDir pack) _ _ _ Hk Hraw) as Hdropped.
    case_decide; cbn [events hooks]; (split; [by apply lookup_path_own_None|done]).
  - exact Hpaths.
  - intros k value [H|H]; apply (Hpaths k (path value)); [left|right];
      by apply lookup_path_own.
  - reflexivity.
  - reflexivity.
Qed.

Lemma empty_entries_are_dropped_witness :
  own (events (buildConfigFromPack (Some silent_pack))) !! "session.idle"
    = Some {| path := "~/.claude/sounds/mew.wav" |}
  ∧ lookup_path (hooks (buildConfigFromPack (Some silent_pack))) "chat.message" = None
  ∧ "~/.claude/sounds/mew.wav" ≠ "".
Proof.
  pose proof (empty_entries_are_dropped (Some silent_pack)) as (_ & Hhooks & Hpaths & _).
  split; [reflexivity|]. split.
  - apply (Hhooks {[ "chat.message" := Structured {| path := "" |} ]} "chat.message"
             (Structured {| path := "" |})); reflexivity.
  - apply (Hpaths "session.idle"). left. reflexivity.
Defined.

(** ** Candidates of [loadSoundPack] *)

(** C6. [loadSoundPack] returns the document of the first candidate whose
    read succeeds with an object (a JSON object or array: a non-null value
    of type ["object"]); the candidates before it, whose read throws or
    gives something else, are passed over; it returns [null] when every
    candidate is like that; and no exception leaves it. *)
Theorem loadSoundPack_first_object (HOME : option string) (fs : Dyn.filesystem) :
  (∀ before p after data,
     (∀ q, q ∈ before → Dyn.rejected HOME fs q) →
     fs (expandTilde HOME p) = Dyn.Ok data →
     Dyn.is_object data = true →
     Dyn.loadSoundPack HOME fs (before ++ p :: after)%list = Dyn.Ok data)
  ∧ (∀ paths,
       (∀ q, q ∈ paths → Dyn.rejected HOME fs q) →
       Dyn.loadSoundPack HOME fs paths = Dyn.Ok Dyn.JNull)
  ∧ (∀ paths, ∃ pack, Dyn.loadSoundPack HOME fs paths = Dyn.Ok pack)
  ∧ (∀ p e, fs (expandTilde HOME p) = Dyn.Throw e → Dyn.rejected HOME fs p)
  ∧ (∀ p data, fs (expandTilde HOME p) = Dyn.Ok data →
       (Dyn.rejected HOME fs p ↔ Dyn.is_object data = false))
  ∧ (∀ data, Dyn.is_object data = true ↔
       (∃ items, data = Dyn.JArr items) ∨ (∃ fields, data = Dyn.JObj fields)).
Proof.
  split; [|split; [|split; [|split; [|split]]]].
  - intros before p after data. apply loadSoundPack_first_accepted.
  - apply loadSoundPack_all_rejected.
  - intros paths. destruct (loadSoundPack_returns HOME fs paths) as (pack & Hpack & _). eauto.
  - intros p e He data Hdata. congruence.
  - intros p data Hdata. split.
    + intros Hrej. exact (Hrej data Hdata).
    + intros Hobj data' Hdata'. congruence.
  - intros data. split.
    + destruct data; unfold Dyn.is_object; rewrite ?andb_false_r;
        intros H; try discriminate; eauto.
    + by intros [[items ->]|[fields ->]].
Qed.

Lemma loadSoundPack_first_object_witness :
  Dyn.loadSoundPack (Some "/home/u") example_fs (Dyn.candidates "/proj" "/cfg")
  = Dyn.Ok snd_document.
Proof.
  apply (proj1 (loadSoundPack_first_object (Some "/home/u") example_fs)
           [ "/proj/.opencode/soundpack.json"; "/cfg/soundpack.json" ]
           "~/.claude/soundpack.json" []).
  - intros q [->|[->|[]%elem_of_nil]%elem_of_cons]%elem_of_cons data Hdata;
      vm_compute in Hdata; [discriminate Hdata|by injection Hdata as <-].
  - reflexivity.
  - reflexivity.
Defined.

(** ** Exceptions *)

(** C8, refuted as stated: a pack file whose entry is [null] is accepted by
    [loadSoundPack] (it is an object), and [buildConfigFromPack] then reads
    [entry.path] of [null]: the [TypeError] reaches the caller. *)
Lemma null_entry_counterexample :
  Dyn.loadSoundPack (Some "/home/u") null_entry_fs (Dyn.candidates "/proj" "/cfg")
    = Dyn.Ok null_entry_document
  ∧ Dyn.buildConfigFromPack null_entry_document = Dyn.Throw Dyn.TypeError
  ∧ Dyn.resolve (Some "/home/u") null_entry_fs (Dyn.candidates "/proj" "/cfg")
    = Dyn.Throw Dyn.TypeError.
Proof. repeat split. Qed.

(** C8, amended.  [loadSoundPack] returns normally for every list of
    candidates and every content of the files, with [null] or an object;
    [buildConfigFromPack] returns normally for [null] and for every
    document that conforms to the declared type [SoundPack], and so does
    the resolution whenever the loaded document is one of these; when no
    candidate gives a pack the result is the default configuration. *)
Theorem resolution_total_on_typed_packs (HOME : option string) (fs : Dyn.filesystem) (paths : list string) :
  (∃ doc, Dyn.loadSoundPack HOME fs paths = Dyn.Ok doc
          ∧ (doc = Dyn.JNull ∨ Dyn.is_object doc = true))
  ∧ (∀ doc pack, Typed.as_SoundPack doc = Some pack →
       Dyn.buildConfigFromPack doc = Dyn.Ok (buildConfigFromPack (Some pack)))
  ∧ Dyn.buildConfigFromPack Dyn.JNull = Dyn.Ok default_config
  ∧ (∀ doc, Dyn.loadSoundPack HOME fs paths = Dyn.Ok doc →
       doc = Dyn.JNull ∨ is_Some (Typed.as_SoundPack doc) →
       ∃ cfg, Dyn.resolve HOME fs paths = Dyn.Ok cfg)
  ∧ ((∀ p, p ∈ paths → Dyn.rejected HOME fs p) →
       Dyn.resolve HOME fs paths = Dyn.Ok default_config).
Proof.
  split; [|split; [|split; [|split]]].
  - apply loadSoundPack_returns.
  - apply buildConfigFromPack_typed.
  - reflexivity.
  - intros doc Hdoc Htyped. unfold Dyn.resolve. rewrite Hdoc. cbn.
    destruct Htyped as [->|[pack Hpack]].
    + by exists default_config.
    + exists (buildConfigFromPack (Some pack)). by apply buildConfigFromPack_typed.
  - intros Hall. unfold Dyn.resolve. by rewrite loadSoundPack_all_rejected.
Qed.

Lemma resolution_total_on_typed_packs_witness :
  ∃ cfg, Dyn.resolve (Some "/home/u") example_fs (Dyn.candidates "/proj" "/cfg") = Dyn.Ok cfg.
Proof.
  apply (proj1 (proj2 (proj2 (proj2
           (resolution_total_on_typed_packs (Some "/home/u") example_fs
              (Dyn.candidates "/proj" "/cfg"))))) snd_document).
  - reflexivity.
  - right. exists snd_pack. reflexivity.
Defined.

(** ** Fields that resolution does not read, and the base directory *)

Section ResolvedEntries.

Lemma resolved_entry_nonempty (base : string) (entry : SoundEntry) :
  rawPath entry ≠ "" →
  resolved_entry base entry = Some {| path := normalizePath base entry |}.
Proof.
  intros Hraw. unfold resolved_entry.
  destruct (Str.truthy (normalizePath base entry)) eqn:E; [done|].
  apply truthy_false, normalizePath_empty_iff in E. done.
Qed.

(** An entry with a non-empty raw path is found under its key, normalized
    against the base directory of the pack. *)
Lemma lookup_path_events (pack : option SoundPack) mapping (k : string) (entry : SoundEntry) :
  pack_events pack = Some mapping → mapping !! k = Some entry → rawPath entry ≠ "" →
  lookup_path (events (buildConfigFromPack pack)) k
  = Some (normalizePath (pack_baseDir pack) entry).
Proof.
  intros Hsec Hk Hraw.
  assert (Hfill : lookup_path (fill (pack_baseDir pack) (Some mapping)) k
                  = Some (normalizePath (pack_baseDir pack) entry)).
  { rewrite lookup_path_fill, Hk. cbn. by rewrite resolved_entry_nonempty. }
  unfold buildConfigFromPack. cbv zeta. rewrite Hsec.
  case_decide as Hinj; cbn [events]; [|done].
  destruct Hinj as [Hev _]. apply keys_length_0 in Hev.
  rewrite lookup_path_assign by done. case_decide as Hidle; [|done].
  subst k. exfalso.
  assert (Hown : own (fill (pack_baseDir pack) (Some mapping)) !! "session.idle"
                 = Some {| path := normalizePath (pack_baseDir pack) entry |}).
  { rewrite fill_own by done. rewrite Hk. cbn. by apply resolved_entry_nonempty. }
  by rewrite Hev, lookup_empty in Hown.
Qed.

Lemma lookup_path_hooks (pack : option SoundPack) mapping (k : string) (entry : SoundEntry) :
  pack_hooks pack = Some mapping → mapping !! k = Some entry → rawPath entry ≠ "" →
  lookup_path (hooks (buildConfigFromPack pack)) k
  = Some (normalizePath (pack_baseDir pack) entry).
Proof.
  intros Hsec Hk Hraw.
  assert (Hfill : lookup_path (fill (pack_baseDir pack) (Some mapping)) k
                  = Some (normalizePath (pack_baseDir pack) entry)).
  { rewrite lookup_path_fill, Hk. cbn. by rewrite resolved_entry_nonempty. }
  unfold buildConfigFromPack. cbv zeta. rewrite Hsec.
  by case_decide; cbn [hooks].
Qed.

Lemma field_agree_build (fields fields' : list (string * Dyn.json)) :
  Dyn.field "baseDir" fields = Dyn.field "baseDir" fields' →
  Dyn.field "opencode" fields = Dyn.field "opencode" fields' →
  Dyn.buildConfigFromPack (Dyn.JObj fields) = Dyn.buildConfigFromPack (Dyn.JObj fields').
Proof.
  intros Hbase Hoc. unfold Dyn.buildConfigFromPack. cbn [Dyn.opt_prop Dyn.get].
  by rewrite Hbase, Hoc.
Qed.

End ResolvedEntries.

(** C9. Two packs that differ at most in their [claude] section resolve to
    the same configuration; on parsed documents, two objects with the same
    fields other than [claude] give the same result of
    [buildConfigFromPack]. *)
Theorem claude_section_not_consumed :
  (∀ pack pack' : SoundPack,
     schema pack = schema pack' → version pack = version pack' →
     baseDir pack = baseDir pack' → opencode pack = opencode pack' →
     buildConfigFromPack (Some pack) = buildConfigFromPack (Some pack'))
  ∧ (∀ pack section, buildConfigFromPack (Some (with_claude section pack))
                     = buildConfigFromPack (Some pack))
  ∧ (∀ fields fields',
       (∀ key, key ≠ "claude" → Dyn.field key fields = Dyn.field key fields') →
       Dyn.buildConfigFromPack (Dyn.JObj fields) = Dyn.buildConfigFromPack (Dyn.JObj fields')).
Proof.
  split; [|split].
  - intros [s v b o c] [s' v' b' o' c']. cbn. by intros -> -> -> ->.
  - by intros [s v b o c] section.
  - intros fields fields' Hsame. apply field_agree_build; by apply Hsame.
Qed.

Lemma claude_section_not_consumed_witness :
  buildConfigFromPack (Some snd_pack)
  = buildConfigFromPack (Some (with_claude (Some example_claude) snd_pack)).
Proof.
  apply (proj1 claude_section_not_consumed snd_pack
           (with_claude (Some example_claude) snd_pack)); reflexivity.
Defined.

(** C10. A pack whose [baseDir] is the empty string is resolved with the
    base directory ["~/.claude/sounds"], and to the same configuration as
    the pack without the field: each entry with a non-empty raw path is
    found under its key, normalized against ["~/.claude/sounds"]. *)
Theorem empty_baseDir_is_default (pack : SoundPack) :
  baseDir pack = Some "" →
  pack_baseDir (Some pack) = "~/.claude/sounds"
  ∧ pack_baseDir (Some (without_baseDir pack)) = "~/.claude/sounds"
  ∧ buildConfigFromPack (Some pack) = buildConfigFromPack (Some (without_baseDir pack))
  ∧ (∀ mapping k entry,
       pack_events (Some pack) = Some mapping → mapping !! k = Some entry → rawPath entry ≠ "" →
       lookup_path (events (buildConfigFromPack (Some pack))) k
       = Some (normalizePath "~/.claude/sounds" entry))
  ∧ (∀ mapping k entry,
       pack_hooks (Some pack) = Some mapping → mapping !! k = Some entry → rawPath entry ≠ "" →
       lookup_path (hooks (buildConfigFromPack (Some pack))) k
       = Some (normalizePath "~/.claude/sounds" entry)).
Proof.
  intros Hbase.
  assert (Hdir : pack_baseDir (Some pack) = "~/.claude/sounds")
    by (unfold pack_baseDir; cbn; by rewrite Hbase).
  split; [done|]. split; [done|]. split; [|split].
  - unfold buildConfigFromPack. cbv zeta. rewrite Hdir.
    by destruct pack.
  - intros mapping k entry Hsec Hk Hraw.
    rewrite (lookup_path_events _ _ _ _ Hsec Hk Hraw). by rewrite Hdir.
  - intros mapping k entry Hsec Hk Hraw.
    rewrite (lookup_path_hooks _ _ _ _ Hsec Hk Hraw). by rewrite Hdir.
Qed.

Lemma empty_baseDir_is_default_witness :
  lookup_path (events (buildConfigFromPack (Some empty_baseDir_pack))) "session.idle"
  = Some "~/.claude/sounds/purr.wav".
Proof.
  apply (proj1 (proj2 (proj2 (proj2 (empty_baseDir_is_default empty_baseDir_pack eq_refl))))
           {[ "session.idle" := Bare "purr.wav" ]} "session.idle" (Bare "purr.wav")).
  - reflexivity.
  - reflexivity.
  - discriminate.
Defined.

(** ** The argument of the playback command *)

Section PlaybackArgument.

Lemma toClodArg_cases (HOME : option string) (fullPath : string) :
  toClodArg HOME fullPath =
    let home := home_of HOME in
    if Str.startsWith fullPath "~/.claude/sounds/"
    then Str.slice fullPath (String.length "~/.claude/sounds/")
    else if Str.truthy home && Str.startsWith fullPath (home +:+ "/.claude/sounds/")
    then Str.slice fullPath (String.length (home +:+ "/.claude/sounds/"))
    else if Str.truthy (final_segment fullPath) then final_segment fullPath
    else fullPath.
Proof.
  unfold toClodArg. cbv zeta. rewrite last_part_split.
  assert (Hsuffix : ∀ home, Str.truthy (home +:+ "/.claude/sounds/") = true).
  { intros home. apply truthy_true, app_nonempty_r. done. }
  unfold filter_Boolean. cbn [omap list_omap mbind option_bind].
  change (Str.truthy "~/.claude/sounds/") with true. cbn [find].
  destruct (Str.startsWith fullPath "~/.claude/sounds/"); [done|].
  destruct (Str.truthy (home_of HOME)); cbn [omap list_omap mbind option_bind andb].
  - rewrite Hsuffix. cbn [find].
    by destruct (Str.startsWith fullPath (home_of HOME +:+ "/.claude/sounds/")).
  - done.
Qed.

End PlaybackArgument.

(** C7, refuted as stated: the resolved path ["/snd/"] starts with no
    prefix of the default sound directory, its final segment is empty, and
    the argument of the command is the whole path. *)
Lemma trailing_slash_counterexample :
  lookup_path (events (buildConfigFromPack (Some directory_pack))) "session.idle" = Some "/snd/"
  ∧ final_segment "/snd/" = ""
  ∧ described_argument None "/snd/" = ""
  ∧ toClodArg None "/snd/" = "/snd/"
  ∧ event None (buildConfigFromPack (Some directory_pack)) "session.idle"
    = [["clod"; "sfx"; "play"; "/snd/"; "&"]].
Proof. repeat split. Qed.

(** C7, amended.  The argument passed to the command is the rest of the
    path behind ["~/.claude/sounds/"] when the path starts with it; else,
    when [HOME] is set and not empty, the rest behind
    [HOME + "/.claude/sounds/"] when the path starts with that; else the
    final ["/"]-separated segment of the path when that segment is not
    empty, and the whole path when it is.  An event ["session.idle"] under
    the default configuration issues one command, with the argument
    ["mew.wav"]. *)
Theorem toClodArg_prefix_or_final_segment (HOME : option string) :
  let unprefixed (p : string) :=
    (∀ rest, p ≠ "~/.claude/sounds/" +:+ rest)
    ∧ (∀ home rest, HOME = Some home → home ≠ "" → p ≠ (home +:+ "/.claude/sounds/") +:+ rest) in
  (∀ rest, toClodArg HOME ("~/.claude/sounds/" +:+ rest) = rest)
  ∧ (∀ home rest,
       HOME = Some home → home ≠ "" →
       (∀ rest', (home +:+ "/.claude/sounds/") +:+ rest ≠ "~/.claude/sounds/" +:+ rest') →
       toClodArg HOME ((home +:+ "/.claude/sounds/") +:+ rest) = rest)
  ∧ (∀ p, unprefixed p → final_segment p ≠ "" → toClodArg HOME p = final_segment p)
  ∧ (∀ p, unprefixed p → final_segment p = "" → toClodArg HOME p = p)
  ∧ event HOME default_config "session.idle" = [["clod"; "sfx"; "play"; "mew.wav"; "&"]].
Proof.
  intros unprefixed.
  assert (Htilde : ∀ rest, toClodArg HOME ("~/.claude/sounds/" +:+ rest) = rest).
  { intros rest. rewrite toClodArg_cases. cbv zeta.
    by rewrite startsWith_app, slice_app. }
  assert (Hun : ∀ p, unprefixed p →
            toClodArg HOME p = if Str.truthy (final_segment p) then final_segment p else p).
  { intros p [Hno_tilde Hno_home]. rewrite toClodArg_cases. cbv zeta.
    rewrite (not_startsWith _ _ Hno_tilde).
    destruct (Str.truthy (home_of HOME)) eqn:Hhome; [|done].
    destruct HOME as [home|]; [|done]. cbn in Hhome |- *.
    apply truthy_true in Hhome.
    by rewrite (not_startsWith _ _ (λ rest, Hno_home home rest eq_refl Hhome)). }
  split; [done|]. split; [|split; [|split]].
  - intros home rest -> Hhome Hno_tilde. rewrite toClodArg_cases. cbv zeta.
    rewrite (not_startsWith _ _ Hno_tilde). change (home_of (Some home)) with home.
    rewrite (proj2 (truthy_true home) Hhome). cbn [andb].
    by rewrite startsWith_app, slice_app.
  - intros p Hp Hseg. rewrite (Hun p Hp). by rewrite (proj2 (truthy_true _) Hseg).
  - intros p Hp Hseg. rewrite (Hun p Hp). by rewrite Hseg.
  - unfold event, playSound. cbn [lookup_path]. change (lookup_path (events default_config) "session.idle")
      with (Some "~/.claude/sounds/mew.wav").
    change (Str.truthy "~/.claude/sounds/mew.wav") with true. cbv iota.
    by rewrite (Htilde "mew.wav" : toClodArg HOME "~/.claude/sounds/mew.wav" = "mew.wav").
Qed.

Lemma toClodArg_prefix_or_final_segment_witness :
  toClodArg (Some "/home/u") "/home/u/.claude/sounds/purr.wav" = "purr.wav"
  ∧ toClodArg (Some "/home/u") "/snd/mew.wav" = "mew.wav"
  ∧ toClodArg (Some "/home/u") "/snd/" = "/snd/".
Proof.
  pose proof (toClodArg_prefix_or_final_segment (Some "/home/u")) as (_ & Hhome & Hseg & Hwhole & _).
  split; [|split].
  - apply (Hhome "/home/u" "purr.wav" eq_refl).
    + discriminate.
    + intros rest'. by apply startsWith_false.
  - apply (Hseg "/snd/mew.wav").
    + split.
      * intros rest. by apply startsWith_false.
      * intros home rest [= <-] _. by apply startsWith_false.
    + discriminate.
  - apply (Hwhole "/snd/").
    + split.
      * intros rest. by apply startsWith_false.
      * intros home rest [= <-] _. by apply startsWith_false.
    + reflexivity.
Defined.

(** ** The two event handlers *)

Section Handlers.

Lemma flat_map_no_key {A B} (f : string * A → list B) (key : string) (l : list (string * A)) :
  (∀ kv, key ≠ kv.1 → f kv = []) → key ∉ l.*1 → flat_map f l = [].
Proof.
  intros Hf. induction l as [|kv l IH]; [done|].
  intros Hkey%not_elem_of_cons. destruct Hkey as [Hne Hkey].
  cbn. by rewrite (Hf kv Hne), IH.
Qed.

(** The loop over all keys fires for the one entry under the event type,
    in whatever order the keys are enumerated. *)
Lemma simple_loop_any_order (config : gmap string PathObject) (event_type : string)
    (l : list (string * PathObject)) :
  NoDup l.*1 →
  (∀ k v, (k, v) ∈ l ↔ config !! k = Some v) →
  flat_map (λ kv : string * PathObject,
              if decide (event_type = kv.1) then [Simple.playSound (path kv.2)] else []) l
  = match config !! event_type with
    | Some value => [Simple.playSound (path value)]
    | None => []
    end.
Proof.
  set (f := λ kv : string * PathObject,
              if decide (event_type = kv.1) then [Simple.playSound (path kv.2)] else []).
  assert (Hf : ∀ kv, event_type ≠ kv.1 → f kv = []).
  { intros kv Hne. unfold f. by rewrite decide_False. }
  revert config. induction l as [|[k v] l IH]; intros config Hnd Hin.
  - destruct (config !! event_type) as [value|] eqn:E; [|done].
    apply Hin in E. by apply elem_of_nil in E.
  - apply NoDup_cons in Hnd as [Hk Hnd]. cbn [flat_map].
    destruct (decide (event_type = k)) as [->|Hne].
    + rewrite (proj1 (Hin k v) ltac:(left)).
      rewrite (flat_map_no_key f k l Hf Hk). unfold f. cbn. by rewrite decide_True.
    + rewrite (Hf (k, v)) by done. cbn [app].
      rewrite (IH (delete k config) Hnd).
      * by rewrite lookup_delete_ne.
      * intros k' v'. rewrite lookup_delete_Some, <- Hin, elem_of_cons.
        split.
        -- intros Hl. split; [|by right]. intros <-. apply Hk.
           apply list_elem_of_fmap. by exists (k, v').
        -- intros [Hk' [[= -> ->]|Hl]]; done.
Qed.

Lemma simple_event_lookup (config : gmap string PathObject) (event_type : string) :
  Simple.event config event_type =
    match config !! event_type with
    | Some value => [Simple.playSound (path value)]
    | None => []
    end.
Proof.
  unfold Simple.event, entries. apply simple_loop_any_order.
  - apply NoDup_fst_map_to_list.
  - intros k v. apply elem_of_map_to_list.
Qed.

Lemma resolved_events_nonempty (pack : option SoundPack) (k : string) (value : PathObject) :
  own (events (buildConfigFromPack pack)) !! k = Some value → path value ≠ "".
Proof.
  intros Hown%lookup_path_own. revert Hown.
  unfold buildConfigFromPack. cbv zeta. case_decide; cbn [events].
  - rewrite lookup_path_assign by done. case_decide.
    + by intros [= <-].
    + apply lookup_path_fill_nonempty.
  - apply lookup_path_fill_nonempty.
Qed.

Lemma resolved_events_proto (pack : option SoundPack) :
  (∀ mapping, pack_events pack = Some mapping → mapping !! "__proto__" = None) →
  proto (events (buildConfigFromPack pack)) = None.
Proof.
  intros Hno.
  assert (Hfill : proto (fill (pack_baseDir pack) (pack_events pack)) = None).
  { destruct (pack_events pack) as [mapping|]; [|done].
    by rewrite fill_proto, (Hno mapping eq_refl). }
  unfold buildConfigFromPack. cbv zeta. case_decide; cbn [events]; [|done].
  by rewrite proto_assign, decide_False.
Qed.

End Handlers.

(** C2, refuted as stated.  Under the default configuration and the event
    ["session.idle"] the simple plugin runs the command with the resolved
    path as its argument, the full plugin with the bare file name (and in
    the background).  And for the pack whose events have an entry
    ["__proto__"], the entry replaces the prototype of the resolved
    [events] object: the single-key lookup finds it under the event type
    ["__proto__"], the loop over the own keys does not. *)
Lemma dispatch_designs_counterexample :
  Simple.event (own (events default_config)) "session.idle"
    = [["clod"; "sfx"; "play"; "~/.claude/sounds/mew.wav"]]
  ∧ event None default_config "session.idle" = [["clod"; "sfx"; "play"; "mew.wav"; "&"]]
  ∧ Dyn.buildConfigFromPack proto_document = Dyn.Ok (buildConfigFromPack (Some proto_pack))
  ∧ Simple.event (own (events (buildConfigFromPack (Some proto_pack)))) "__proto__" = []
  ∧ event None (buildConfigFromPack (Some proto_pack)) "__proto__"
    = [["clod"; "sfx"; "play"; "hiss.wav"; "&"]].
Proof. repeat split. Qed.

(** C2, amended.  For a configuration whose events all have a non-empty
    path (every resolved configuration is one), and an event type other
    than ["__proto__"] or a configuration whose prototype was not replaced
    (every configuration resolved from a pack without an event entry
    ["__proto__"] is one), the loop over all keys and the single-key lookup
    play the same paths: the path under the event type if there is one,
    nothing otherwise.  The commands differ: the simple plugin passes the
    path itself, the full plugin passes [toClodArg] of it. *)
Theorem dispatch_designs_select_same_path (HOME : option string) (soundConfig : SoundConfig) (event_type : string) :
  (∀ k value, own (events soundConfig) !! k = Some value → path value ≠ "") →
  event_type ≠ "__proto__" ∨ proto (events soundConfig) = None →
  let selected :=
    match own (events soundConfig) !! event_type with
    | Some value => [path value]
    | None => []
    end in
  Simple.event (own (events soundConfig)) event_type = Simple.playSound <$> selected
  ∧ event HOME soundConfig event_type = playSound HOME <$> selected
  ∧ (∀ p, Simple.playSound p = ["clod"; "sfx"; "play"; p])
  ∧ (∀ p, playSound HOME p = ["clod"; "sfx"; "play"; toClodArg HOME p; "&"])
  ∧ (∀ pack k value,
       own (events (buildConfigFromPack pack)) !! k = Some value → path value ≠ "")
  ∧ (∀ pack,
       (∀ mapping, pack_events pack = Some mapping → mapping !! "__proto__" = None) →
       proto (events (buildConfigFromPack pack)) = None).
Proof.
  intros Hpaths Hproto selected. subst selected.
  split; [|split; [|split; [|split; [|split]]]].
  - rewrite simple_event_lookup. by destruct (own (events soundConfig) !! event_type).
  - unfold event, lookup_path.
    destruct (own (events soundConfig) !! event_type) as [value|] eqn:E.
    + by rewrite (proj2 (truthy_true _) (Hpaths _ _ E)).
    + case_decide as Hkey; [|done].
      destruct Hproto as [Hne| ->]; done.
  - done.
  - done.
  - apply resolved_events_nonempty.
  - apply resolved_events_proto.
Qed.

Lemma dispatch_designs_select_same_path_witness :
  Simple.event (own (events (buildConfigFromPack (Some snd_pack)))) "session.idle"
    = [["clod"; "sfx"; "play"; "/snd/mew.wav"]]
  ∧ event (Some "/home/u") (buildConfigFromPack (Some snd_pack)) "session.idle"
    = [["clod"; "sfx"; "play"; "mew.wav"; "&"]].
Proof.
  assert (Hpaths : ∀ k value,
            own (events (buildConfigFromPack (Some snd_pack))) !! k = Some value →
            path value ≠ "").
  { intros k value Hk.
    change (own (events (buildConfigFromPack (Some snd_pack))))
      with ({[ "session.idle" := {| path := "/snd/mew.wav" |} ]} : gmap string PathObject) in Hk.
    apply lookup_singleton_Some in Hk as [_ <-]. discriminate. }
  pose proof (dispatch_designs_select_same_path (Some "/home/u")
                (buildConfigFromPack (Some snd_pack)) "session.idle" Hpaths
                (or_intror eq_refl)) as (Hsimple & Hfull & _).
  split; [exact Hsimple|exact Hfull].
Defined.

(** ** Tilde expansion *)
Section ExpandTilde.

Lemma getSubstitution_plain_prefix (matched before after plain replacement : string) :
  Str.occurs "$" plain = false →
  Str.getSubstitution matched before after (plain +:+ replacement)
  = plain +:+ Str.getSubstitution matched before after replacement.
Proof.
  induction plain as [|c plain IH]; [done|].
  cbn [Str.occurs]. intros [Hc Hplain]%orb_false_iff.
  rewrite !app_cons. cbn [Str.getSubstitution]. rewrite Hc. by rewrite IH.
Qed.

Lemma getSubstitution_plain (matched before after plain : string) :
  Str.occurs "$" plain = false →
  Str.getSubstitution matched before after plain = plain.
Proof.
  intros Hplain.
  rewrite <- (app_empty_r plain) at 1.
  rewrite getSubstitution_plain_prefix by done. apply app_empty_r.
Qed.

Lemma expandTilde_tilde (home rest : string) :
  home ≠ "" →
  expandTilde (Some home) ("~" +:+ rest)
  = Str.getSubstitution "~" "" rest home +:+ rest.
Proof.
  intros Hhome. unfold expandTilde.
  change (Str.startsWith ("~" +:+ rest) "~") with true. cbv iota.
  by rewrite (proj2 (truthy_true home) Hhome).
Qed.

End ExpandTilde.

(** X1. [expandTilde] leaves a path alone unless it starts with ["~"] and
    [HOME] is set and not empty; then the leading ["~"] alone is replaced
    (also in ["~user/..."]): by [HOME] itself when [HOME] has no dollar
    sign, while in a [HOME] with a dollar sign the replacement patterns of
    [String.prototype.replace] apply: ["$$"] becomes one dollar sign and
    ["$&"] becomes ["~"]. *)
Theorem expandTilde_replaces_leading_tilde (HOME : option string) :
  (∀ p, (∀ rest, p ≠ "~" +:+ rest) → expandTilde HOME p = p)
  ∧ (∀ p, HOME = None ∨ HOME = Some "" → expandTilde HOME p = p)
  ∧ (∀ home rest,
       HOME = Some home → home ≠ "" → Str.occurs "$" home = false →
       expandTilde HOME ("~" +:+ rest) = home +:+ rest)
  ∧ (∀ a b rest,
       HOME = Some (a +:+ "$$" +:+ b) →
       Str.occurs "$" a = false → Str.occurs "$" b = false →
       expandTilde HOME ("~" +:+ rest) = a +:+ "$" +:+ b +:+ rest)
  ∧ (∀ a b rest,
       HOME = Some (a +:+ "$&" +:+ b) →
       Str.occurs "$" a = false → Str.occurs "$" b = false →
       expandTilde HOME ("~" +:+ rest) = a +:+ "~" +:+ b +:+ rest).
Proof.
  split; [|split; [|split; [|split]]].
  - intros p Hp. unfold expandTilde. by rewrite (not_startsWith _ _ Hp).
  - intros p [-> | ->]; unfold expandTilde; by destruct (Str.startsWith p "~").
  - intros home rest -> Hhome Hplain.
    by rewrite expandTilde_tilde, getSubstitution_plain.
  - intros a b rest -> Ha Hb.
    rewrite expandTilde_tilde by (by apply app_nonempty_r).
    rewrite getSubstitution_plain_prefix by done.
    change ("$$" +:+ b) with (String "$" (String "$" b)).
    cbn [Str.getSubstitution]. change (Ascii.eqb "$" "$") with true. cbv iota.
    rewrite getSubstitution_plain by done.
    by rewrite !app_assoc'.
  - intros a b rest -> Ha Hb.
    rewrite expandTilde_tilde by (by apply app_nonempty_r).
    rewrite getSubstitution_plain_prefix by done.
    change ("$&" +:+ b) with (String "$" (String "&" b)).
    cbn [Str.getSubstitution].
    change (Ascii.eqb "$" "$") with true. change (Ascii.eqb "&" "$") with false.
    change (Ascii.eqb "&" "&") with true. cbv iota.
    rewrite getSubstitution_plain by done.
    by rewrite !app_assoc'.
Qed.

Lemma expandTilde_replaces_leading_tilde_witness :
  expandTilde (Some "/home/u") "~/.claude/soundpack.json" = "/home/u/.claude/soundpack.json"
  ∧ expandTilde (Some "/home/u") "/proj/.opencode/soundpack.json" = "/proj/.opencode/soundpack.json"
  ∧ expandTilde None "~/.claude/soundpack.json" = "~/.claude/soundpack.json"
  ∧ expandTilde (Some "/home/a$$b") "~/x" = "/home/a$b/x".
Proof.
  pose proof (expandTilde_replaces_leading_tilde (Some "/home/u")) as (Hother & _ & Hplain & _).
  pose proof (expandTilde_replaces_leading_tilde None) as (_ & Hunset & _).
  pose proof (expandTilde_replaces_leading_tilde (Some "/home/a$$b")) as (_ & _ & _ & Hdollar & _).
  split; [|split; [|split]].
  - apply (Hplain "/home/u" "/.claude/soundpack.json" eq_refl); [discriminate|reflexivity].
  - apply Hother. intros rest. by apply startsWith_false.
  - apply Hunset. by left.
  - apply (Hdollar "/home/a" "b" "/x" eq_refl); reflexivity.
Defined.

(** ** From an entry to the argument of the command *)
Section EntryToArgument.

Lemma normalizePath_join (baseDir : string) (entry : SoundEntry) :
  rawPath entry ≠ "" →
  (∀ rest, rawPath entry ≠ "/" +:+ rest) →
  (∀ rest, rawPath entry ≠ "~" +:+ rest) →
  normalizePath baseDir entry =
    if Str.endsWith baseDir "/" then baseDir +:+ rawPath entry
    else baseDir +:+ "/" +:+ rawPath entry.
Proof.
  intros Hp Hslash Htilde. unfold normalizePath.
  rewrite (proj2 (truthy_true _) Hp). cbn [negb].
  by rewrite (not_startsWith _ _ Hslash), (not_startsWith _ _ Htilde).
Qed.

Lemma endsWith_app_nonempty (front s suf : string) :
  s ≠ "" → (String.length suf ≤ String.length s)%nat →
  Str.endsWith (front +:+ s) suf = Str.endsWith s suf.
Proof.
  intros Hs Hlen. induction front as [|c front IH]; [done|].
  rewrite app_cons. cbn [Str.endsWith]. rewrite IH.
  destruct (String.eqb_spec (String c (front +:+ s)) suf) as [<-|Hne]; [|done].
  exfalso. cbn [String.length] in Hlen.
  assert (Hl : ∀ a b, String.length (a +:+ b) = (String.length a + String.length b)%nat).
  { intros a b. induction a as [|x a IHa]; [done|]. rewrite app_cons. cbn. by rewrite IHa. }
  rewrite Hl in Hlen. lia.
Qed.

Lemma toClodArg_tilde (HOME : option string) (rest : string) :
  toClodArg HOME ("~/.claude/sounds/" +:+ rest) = rest.
Proof.
  rewrite toClodArg_cases. cbv zeta. by rewrite startsWith_app, slice_app.
Qed.

Lemma toClodArg_home (home rest : string) :
  home ≠ "" → (∀ r, home ≠ "~" +:+ r) →
  toClodArg (Some home) ((home +:+ "/.claude/sounds/") +:+ rest) = rest.
Proof.
  intros Hhome Htilde. rewrite toClodArg_cases. cbv zeta.
  change (home_of (Some home)) with home.
  assert (Hno : Str.startsWith ((home +:+ "/.claude/sounds/") +:+ rest) "~/.claude/sounds/" = false).
  { destruct home as [|c home]; [done|].
    rewrite !app_cons. cbn [Str.startsWith].
    destruct (Ascii.eqb_spec "~" c) as [<-|Hc]; [|done].
    by destruct (Htilde home). }
  rewrite Hno, (proj2 (truthy_true home) Hhome). cbn [andb].
  by rewrite startsWith_app, slice_app.
Qed.

Lemma occurs_app_sep (sep : ascii) (a p : string) :
  Str.occurs sep (a +:+ String sep p) = true.
Proof.
  induction a as [|c a IH].
  - rewrite app_empty_l. cbn. by rewrite Ascii.eqb_refl.
  - rewrite app_cons. cbn [Str.occurs]. rewrite IH. apply orb_true_r.
Qed.

Lemma final_segment_app_slash (a p : string) :
  final_segment (a +:+ String "/" p) = final_segment p.
Proof.
  induction a as [|c a IH].
  - rewrite app_empty_l. cbn [final_segment Str.occurs].
    by change (Ascii.eqb "/" "/") with true.
  - rewrite app_cons. cbn [final_segment].
    rewrite <- app_cons, occurs_app_sep. apply IH.
Qed.

(** Past the base directory, the normalized path of a relative entry ends
    in ["/"] and the raw path. *)
Lemma normalizePath_relative_tail (baseDir : string) (entry : SoundEntry) :
  rawPath entry ≠ "" →
  (∀ rest, rawPath entry ≠ "/" +:+ rest) →
  (∀ rest, rawPath entry ≠ "~" +:+ rest) →
  ∃ front, normalizePath baseDir entry = front +:+ String "/" (rawPath entry).
Proof.
  intros Hp Hslash Htilde. rewrite normalizePath_join by done.
  destruct (Str.endsWith baseDir "/") eqn:E.
  - destruct (endsWith_inv _ _ E) as [front ->]. exists front. by rewrite app_assoc'.
  - by exists baseDir.
Qed.

End EntryToArgument.

(** X2. A relative file name configured in a pack without [baseDir] makes
    the round trip: normalized against ["~/.claude/sounds"] (with or
    without a final ["/"]) and turned into the argument of the command by
    [toClodArg], it is the file name again, sub-directories included,
    whatever [HOME] is. *)
Theorem toClodArg_normalizePath_default_dir (HOME : option string) (entry : SoundEntry) (p : string) :
  rawPath entry = p →
  p ≠ "" →
  (∀ rest, p ≠ "/" +:+ rest) →
  (∀ rest, p ≠ "~" +:+ rest) →
  toClodArg HOME (normalizePath DEFAULT_BASE_DIR entry) = p
  ∧ toClodArg HOME (normalizePath "~/.claude/sounds/" entry) = p.
Proof.
  intros <- Hp Hslash Htilde.
  rewrite !normalizePath_join by done.
  change (Str.endsWith DEFAULT_BASE_DIR "/") with false.
  change (Str.endsWith "~/.claude/sounds/" "/") with true. cbv iota.
  split; apply (toClodArg_tilde HOME (rawPath entry)).
Qed.

Lemma toClodArg_normalizePath_default_dir_witness :
  toClodArg (Some "/home/u") (normalizePath DEFAULT_BASE_DIR (Bare "cats/purr.wav")) = "cats/purr.wav".
Proof.
  refine (proj1 (toClodArg_normalizePath_default_dir (Some "/home/u") (Bare "cats/purr.wav")
                   "cats/purr.wav" eq_refl _ _ _)).
  - discriminate.
  - intros rest. by apply startsWith_false.
  - intros rest. by apply startsWith_false.
Defined.

(** X3. The same round trip through the expanded form of the default
    directory: with [HOME] set to a non-empty [home] that does not start
    with ["~"], a relative file name normalized against
    [home + "/.claude/sounds"] (with or without a final ["/"]) comes back
    as itself from [toClodArg]. *)
Theorem toClodArg_normalizePath_home_dir (home : string) (entry : SoundEntry) (p : string) :
  home ≠ "" →
  (∀ rest, home ≠ "~" +:+ rest) →
  rawPath entry = p →
  p ≠ "" →
  (∀ rest, p ≠ "/" +:+ rest) →
  (∀ rest, p ≠ "~" +:+ rest) →
  toClodArg (Some home) (normalizePath (home +:+ "/.claude/sounds") entry) = p
  ∧ toClodArg (Some home) (normalizePath (home +:+ "/.claude/sounds/") entry) = p.
Proof.
  intros Hhome Hhome_tilde <- Hp Hslash Htilde.
  rewrite !normalizePath_join by done.
  rewrite (endsWith_app_nonempty home "/.claude/sounds" "/") by (done || cbn; lia).
  rewrite (endsWith_app_nonempty home "/.claude/sounds/" "/") by (done || cbn; lia).
  change (Str.endsWith "/.claude/sounds" "/") with false.
  change (Str.endsWith "/.claude/sounds/" "/") with true. cbv iota.
  split.
  - rewrite <- (toClodArg_home home (rawPath entry) Hhome Hhome_tilde) at 2.
    f_equal. by rewrite !app_assoc'.
  - by apply toClodArg_home.
Qed.

Lemma toClodArg_normalizePath_home_dir_witness :
  toClodArg (Some "/home/u") (normalizePath "/home/u/.claude/sounds" (Bare "purr.wav")) = "purr.wav".
Proof.
  refine (proj1 (toClodArg_normalizePath_home_dir "/home/u" (Bare "purr.wav") "purr.wav"
                   _ _ eq_refl _ _ _)).
  - discriminate.
  - intros rest. by apply startsWith_false.
  - discriminate.
  - intros rest. by apply startsWith_false.
  - intros rest. by apply startsWith_false.
Defined.

Section ForeignPaths.

Lemma toClodArg_unprefixed (HOME : option string) (p : string) :
  (∀ rest, p ≠ "~/.claude/sounds/" +:+ rest) →
  (∀ home rest, HOME = Some home → home ≠ "" → p ≠ (home +:+ "/.claude/sounds/") +:+ rest) →
  toClodArg HOME p = if Str.truthy (final_segment p) then final_segment p else p.
Proof.
  intros Hno_tilde Hno_home. rewrite toClodArg_cases. cbv zeta.
  rewrite (not_startsWith _ _ Hno_tilde).
  destruct (Str.truthy (home_of HOME)) eqn:Hhome; [|done].
  destruct HOME as [home|]; [|done].
  change (home_of (Some home)) with home in *.
  apply truthy_true in Hhome.
  by rewrite (not_startsWith _ _ (λ rest, Hno_home home rest eq_refl Hhome)).
Qed.

End ForeignPaths.

(** X4. The base directory of a pack does not reach the command when it is
    not the default sound directory: for a relative entry whose normalized
    path starts with neither form of the default directory, the argument
    of the command is the final segment of the raw path alone (provided
    the raw path does not end with ["/"]), the same for every such base
    directory. *)
Theorem toClodArg_forgets_foreign_baseDir (HOME : option string) (baseDir : string)
    (entry : SoundEntry) (p : string) :
  rawPath entry = p →
  p ≠ "" →
  (∀ rest, p ≠ "/" +:+ rest) →
  (∀ rest, p ≠ "~" +:+ rest) →
  final_segment p ≠ "" →
  (∀ rest, normalizePath baseDir entry ≠ "~/.claude/sounds/" +:+ rest) →
  (∀ home rest, HOME = Some home → home ≠ "" →
     normalizePath baseDir entry ≠ (home +:+ "/.claude/sounds/") +:+ rest) →
  toClodArg HOME (normalizePath baseDir entry) = final_segment p.
Proof.
  intros <- Hp Hslash Htilde Hseg Hno_tilde Hno_home.
  rewrite toClodArg_unprefixed by done.
  destruct (normalizePath_relative_tail baseDir entry Hp Hslash Htilde) as [front ->].
  rewrite final_segment_app_slash.
  by rewrite (proj2 (truthy_true _) Hseg).
Qed.

Lemma toClodArg_forgets_foreign_baseDir_witness :
  toClodArg (Some "/home/u") (normalizePath "/snd" (Bare "cats/mew.wav")) = "mew.wav"
  ∧ toClodArg (Some "/home/u") (normalizePath "/opt/sounds" (Bare "cats/mew.wav")) = "mew.wav".
Proof.
  split.
  - refine (toClodArg_forgets_foreign_baseDir (Some "/home/u") "/snd" (Bare "cats/mew.wav")
              "cats/mew.wav" eq_refl _ _ _ _ _ _).
    + discriminate.
    + intros rest. by apply startsWith_false.
    + intros rest. by apply startsWith_false.
    + discriminate.
    + intros rest. by apply startsWith_false.
    + intros home rest [= <-] _. by apply startsWith_false.
  - refine (toClodArg_forgets_foreign_baseDir (Some "/home/u") "/opt/sounds" (Bare "cats/mew.wav")
              "cats/mew.wav" eq_refl _ _ _ _ _ _).
    + discriminate.
    + intros rest. by apply startsWith_false.
    + intros rest. by apply startsWith_false.
    + discriminate.
    + intros rest. by apply startsWith_false.
    + intros home rest [= <-] _. by apply startsWith_false.
Defined.

(** X5. The argument of the command is empty in three cases only: the path
    is empty; the path is exactly ["~/.claude/sounds/"]; or [HOME] is set
    and not empty and the path is exactly [HOME + "/.claude/sounds/"]
    (and does not start with ["~/.claude/sounds/"]). *)
Theorem toClodArg_empty_iff (HOME : option string) (p : string) :
  toClodArg HOME p = "" ↔
    p = ""
    ∨ p = "~/.claude/sounds/"
    ∨ (home_of HOME ≠ ""
       ∧ p = home_of HOME +:+ "/.claude/sounds/"
       ∧ ∀ rest, p ≠ "~/.claude/sounds/" +:+ rest).
Proof.
  rewrite toClodArg_cases. cbv zeta.
  destruct (Str.startsWith p "~/.claude/sounds/") eqn:Htilde.
  - destruct (startsWith_inv _ _ Htilde) as [rest ->]. rewrite slice_app. split.
    + intros ->. right. left. by rewrite app_empty_r.
    + intros [H|[H|(_ & _ & H)]].
      * by destruct rest.
      * rewrite <- (app_empty_r "~/.claude/sounds/") in H at 2.
        by apply (inj (String.append "~/.claude/sounds/")) in H.
      * by destruct (H rest).
  - assert (Hno : ∀ rest, p ≠ "~/.claude/sounds/" +:+ rest)
      by (intros rest; by apply startsWith_false).
    destruct (Str.truthy (home_of HOME)) eqn:Hhome; cbn [andb].
    + apply truthy_true in Hhome.
      destruct (Str.startsWith p (home_of HOME +:+ "/.claude/sounds/")) eqn:Hpre.
      * destruct (startsWith_inv _ _ Hpre) as [rest ->]. rewrite slice_app. split.
        -- intros ->. right. right. by rewrite app_empty_r in *.
        -- intros [H|[H|(_ & H & _)]].
           ++ exfalso. revert H. rewrite app_assoc'. by apply app_nonempty_r.
           ++ exfalso. by apply (Hno "").
           ++ rewrite <- (app_empty_r (home_of HOME +:+ "/.claude/sounds/")) in H at 2.
              by apply (inj (String.append _)) in H.
      * split.
        -- destruct (Str.truthy (final_segment p)) eqn:Hseg.
           ++ intros H. apply truthy_true in Hseg. done.
           ++ auto.
        -- intros [->|[->|(_ & -> & _)]]; [done|done|].
           pose proof (startsWith_app (home_of HOME +:+ "/.claude/sounds/") "") as Hself.
           rewrite app_empty_r in Hself. congruence.
    + apply truthy_false in Hhome. split.
      * destruct (Str.truthy (final_segment p)) eqn:Hseg.
        -- intros H. apply truthy_true in Hseg. done.
        -- auto.
      * intros [->|[->|(H & _)]]; done.
Qed.

(** ** Rooted paths *)
Section Rooted.

Lemma rooted_nonempty (p : string) : rooted p = true → p ≠ "".
Proof. by destruct p. Qed.

Lemma rooted_app (b x : string) : b ≠ "" → rooted (b +:+ x) = rooted b.
Proof. destruct b as [|c b]; [done|]. intros _. by rewrite app_cons. Qed.

Lemma rooted_verbatim (baseDir : string) (entry : SoundEntry) :
  rooted (rawPath entry) = true → normalizePath baseDir entry = rawPath entry.
Proof.
  intros Hr. unfold normalizePath.
  rewrite (proj2 (truthy_true _) (rooted_nonempty _ Hr)). cbn [negb].
  unfold rooted in Hr. by rewrite Hr.
Qed.

Lemma unrooted_join (baseDir : string) (entry : SoundEntry) :
  rawPath entry ≠ "" → rooted (rawPath entry) = false →
  normalizePath baseDir entry =
    if Str.endsWith baseDir "/" then baseDir +:+ rawPath entry
    else baseDir +:+ "/" +:+ rawPath entry.
Proof.
  intros Hp Hr. unfold normalizePath.
  rewrite (proj2 (truthy_true _) Hp). cbn [negb].
  unfold rooted in Hr. by rewrite Hr.
Qed.

Lemma normalizePath_rooted (baseDir : string) (entry : SoundEntry) :
  rooted baseDir = true ∨ baseDir = "" →
  rawPath entry ≠ "" →
  rooted (normalizePath baseDir entry) = true.
Proof.
  intros Hb Hp. destruct (rooted (rawPath entry)) eqn:Hr.
  - by rewrite rooted_verbatim.
  - rewrite unrooted_join by done. destruct Hb as [Hb| ->]; [|done].
    by destruct (Str.endsWith baseDir "/"); rewrite rooted_app by (by apply rooted_nonempty).
Qed.

Lemma normalizePath_unrooted (baseDir : string) (entry : SoundEntry) :
  rooted baseDir = false → baseDir ≠ "" →
  rawPath entry ≠ "" → rooted (rawPath entry) = false →
  rooted (normalizePath baseDir entry) = false.
Proof.
  intros Hb Hne Hp Hr. rewrite unrooted_join by done.
  by destruct (Str.endsWith baseDir "/"); rewrite rooted_app.
Qed.

Lemma length_app (a b : string) :
  String.length (a +:+ b) = (String.length a + String.length b)%nat.
Proof. induction a as [|x a IH]; [done|]. rewrite app_cons. cbn. by rewrite IH. Qed.

Lemma app_nonempty_l_neq (a x : string) : a ≠ "" → a +:+ x ≠ x.
Proof.
  intros Ha H. apply (f_equal String.length) in H. rewrite length_app in H.
  destruct a; [done|]. cbn in H. lia.
Qed.

(** Where a path found in a filled mapping comes from. *)
Lemma lookup_path_fill_Some (baseDir : string) section (k p : string) :
  lookup_path (fill baseDir section) k = Some p →
  ∃ mapping entry, section = Some mapping ∧ mapping !! k = Some entry
                   ∧ rawPath entry ≠ "" ∧ p = normalizePath baseDir entry.
Proof.
  destruct section as [mapping|]; [|by rewrite lookup_path_fill_None].
  rewrite lookup_path_fill. destruct (mapping !! k) as [entry|] eqn:Hk; [|done]. cbn.
  destruct (resolved_entry baseDir entry) as [value|] eqn:E; [|done].
  intros [= <-]. exists mapping, entry. split; [done|]. split; [done|].
  split; [|by apply (resolved_entry_Some _ _ _ E)].
  intros Hraw. apply (resolved_entry_None baseDir) in Hraw. congruence.
Qed.

Lemma lookup_path_events_Some (pack : option SoundPack) (k p : string) :
  lookup_path (events (buildConfigFromPack pack)) k = Some p →
  (k = "session.idle" ∧ p = "~/.claude/sounds/mew.wav")
  ∨ lookup_path (fill (pack_baseDir pack) (pack_events pack)) k = Some p.
Proof.
  unfold buildConfigFromPack. cbv zeta. case_decide; cbn [events]; [|auto].
  rewrite lookup_path_assign by done. case_decide; [|auto].
  intros [= <-]. by left.
Qed.

Lemma lookup_path_hooks_fill (pack : option SoundPack) (k : string) :
  lookup_path (hooks (buildConfigFromPack pack)) k
  = lookup_path (fill (pack_baseDir pack) (pack_hooks pack)) k.
Proof. unfold buildConfigFromPack. cbv zeta. by case_decide. Qed.

End Rooted.

(** X6. When the base directory of the pack starts with ["/"] or ["~"] (as
    it does when the pack has none or an empty one), every path found in
    the resolved events and hooks starts with ["/"] or ["~"].  With a base
    directory that is not empty and starts with neither, an entry whose raw
    path is not empty and starts with neither is resolved to a path that
    starts with neither. *)
Theorem resolved_paths_rooted (pack : option SoundPack) :
  (rooted (pack_baseDir pack) = true →
     ∀ k p,
       lookup_path (events (buildConfigFromPack pack)) k = Some p
       ∨ lookup_path (hooks (buildConfigFromPack pack)) k = Some p →
       rooted p = true)
  ∧ (pack ≫= baseDir = None ∨ pack ≫= baseDir = Some "" →
       rooted (pack_baseDir pack) = true)
  ∧ (∀ mapping k entry,
       rooted (pack_baseDir pack) = false →
       pack_events pack = Some mapping → mapping !! k = Some entry →
       rawPath entry ≠ "" → rooted (rawPath entry) = false →
       ∃ p, lookup_path (events (buildConfigFromPack pack)) k = Some p ∧ rooted p = false).
Proof.
  split; [|split].
  - intros Hbase k p [H|H].
    + apply lookup_path_events_Some in H as [[_ ->]|H]; [done|].
      apply lookup_path_fill_Some in H as (mapping & entry & _ & _ & Hraw & ->).
      apply normalizePath_rooted; auto.
    + rewrite lookup_path_hooks_fill in H.
      apply lookup_path_fill_Some in H as (mapping & entry & _ & _ & Hraw & ->).
      apply normalizePath_rooted; auto.
  - unfold pack_baseDir. by intros [-> | ->].
  - intros mapping k entry Hbase Hsec Hk Hraw Hunrooted.
    exists (normalizePath (pack_baseDir pack) entry). split.
    + by apply (lookup_path_events pack mapping).
    + apply normalizePath_unrooted; try done.
      unfold pack_baseDir. destruct (pack ≫= baseDir) as [dir|]; [|done].
      destruct (Str.truthy dir) eqn:E; [by apply truthy_true|done].
Qed.

Lemma resolved_paths_rooted_witness :
  rooted "/snd/mew.wav" = true.
Proof.
  apply (proj1 (resolved_paths_rooted (Some snd_pack)) eq_refl "session.idle" "/snd/mew.wav").
  left. reflexivity.
Defined.

(** X7. Normalizing a normalized path changes nothing when the base
    directory is empty or starts with ["/"] or ["~"]: the path of a resolved
    entry, given back as an entry of either form, is resolved to itself.
    With any other base directory a relative entry is not stable: the base
    directory is put in front again. *)
Theorem normalizePath_idempotent (baseDir : string) (entry : SoundEntry) :
  (rooted baseDir = true ∨ baseDir = "" →
     normalizePath baseDir (Bare (normalizePath baseDir entry)) = normalizePath baseDir entry
     ∧ normalizePath baseDir (Structured {| path := normalizePath baseDir entry |})
       = normalizePath baseDir entry)
  ∧ (rooted baseDir = false → baseDir ≠ "" →
     rawPath entry ≠ "" → rooted (rawPath entry) = false →
     normalizePath baseDir (Bare (normalizePath baseDir entry)) ≠ normalizePath baseDir entry).
Proof.
  split.
  - intros Hb.
    assert (H : ∀ again, rawPath again = normalizePath baseDir entry →
                normalizePath baseDir again = normalizePath baseDir entry).
    { intros again Hagain.
      destruct (decide (rawPath entry = "")) as [Hraw|Hraw].
      - assert (Hn : normalizePath baseDir entry = "") by (by apply normalizePath_empty_iff).
        rewrite Hn in *. by apply normalizePath_empty_iff.
      - rewrite <- Hagain. apply rooted_verbatim. rewrite Hagain.
        by apply normalizePath_rooted. }
    split; by apply H.
  - intros Hb Hne Hraw Hr.
    pose proof (normalizePath_unrooted baseDir entry Hb Hne Hraw Hr) as Hun.
    assert (Hn : normalizePath baseDir entry ≠ "")
      by (by rewrite normalizePath_empty_iff).
    rewrite (unrooted_join baseDir (Bare _)) by done. cbn [rawPath].
    destruct (Str.endsWith baseDir "/"); [by apply app_nonempty_l_neq|].
    rewrite <- app_assoc'. apply app_nonempty_l_neq. by apply app_nonempty_r.
Qed.

Lemma normalizePath_idempotent_witness :
  normalizePath "/snd" (Bare (normalizePath "/snd" (Bare "mew.wav"))) = "/snd/mew.wav"
  ∧ normalizePath "snd" (Bare (normalizePath "snd" (Bare "mew.wav"))) ≠ "snd/mew.wav".
Proof.
  split.
  - apply (proj1 (normalizePath_idempotent "/snd" (Bare "mew.wav"))). by left.
  - apply (proj2 (normalizePath_idempotent "snd" (Bare "mew.wav"))); done.
Defined.

(** ** The resolved configuration in closed form *)
Section ClosedForm.

Lemma fill_own_survivors (baseDir : string) section :
  own (fill baseDir section) = survivors baseDir section.
Proof.
  apply map_eq. intros k. unfold survivors.
  rewrite lookup_omap, lookup_delete.
  destruct (decide (k = "__proto__")) as [->|Hk].
  - rewrite fill_own_proto_key. by rewrite decide_True.
  - rewrite decide_False by done. destruct section as [mapping|]; cbn [from_option id].
    + by apply fill_own.
    + by rewrite lookup_empty.
Qed.

Lemma fill_proto_replaced (baseDir : string) section :
  proto (fill baseDir section) = replaced_proto baseDir section.
Proof. destruct section as [mapping|]; [apply fill_proto|done]. Qed.




End ClosedForm.

(** X8. What [buildConfigFromPack] returns, without the loops: the own
    properties of [hooks] are the hook entries under a key other than
    ["__proto__"] whose raw path is not empty, each with its normalized
    path; those of [events] are the event entries of that kind, or the one
    default entry when neither section has an entry of that kind; and an
    entry under ["__proto__"] with a non-empty raw path becomes the
    prototype of its mapping.  The result does not depend on the order in
    which the entries are enumerated. *)
Theorem buildConfigFromPack_closed_form (pack : option SoundPack) :
  let dir := pack_baseDir pack in
  let cfg := buildConfigFromPack pack in
  own (hooks cfg) = survivors dir (pack_hooks pack)
  ∧ proto (hooks cfg) = replaced_proto dir (pack_hooks pack)
  ∧ proto (events cfg) = replaced_proto dir (pack_events pack)
  ∧ (survivors dir (pack_events pack) = ∅ → survivors dir (pack_hooks pack) = ∅ →
       own (events cfg) = {[ "session.idle" := {| path := "~/.claude/sounds/mew.wav" |} ]})
  ∧ (survivors dir (pack_events pack) ≠ ∅ ∨ survivors dir (pack_hooks pack) ≠ ∅ →
       own (events cfg) = survivors dir (pack_events pack))
  ∧ (∀ section k,
       survivors dir section !! k =
         if decide (k = "__proto__") then None
         else (section ≫= (.!! k)) ≫= resolved_entry dir)
  ∧ (∀ entry, resolved_entry dir entry =
       if decide (rawPath entry = "") then None
       else Some {| path := normalizePath dir entry |}).
Proof.
  intros dir cfg. subst cfg. unfold buildConfigFromPack. cbv zeta. fold dir.
  rewrite <- !fill_own_survivors.
  split; [|split; [|split; [|split; [|split; [|split]]]]].
  - by case_decide.
  - rewrite <- fill_proto_replaced. by case_decide.
  - rewrite <- fill_proto_replaced. case_decide; cbn [events]; [|done].
    by rewrite proto_assign, decide_False.
  - intros Hev Hhk. rewrite decide_True by (by rewrite !keys_length_0).
    cbn [events]. unfold assign. rewrite decide_False by done. cbn [own].
    by rewrite Hev, insert_empty.
  - intros Hsome. rewrite decide_False; [done|].
    rewrite !keys_length_0. intros [Hev Hhk]. by destruct Hsome.
  - intros section k. unfold survivors. rewrite lookup_omap, lookup_delete.
    case_decide as Hk; [by subst; rewrite decide_True|].
    rewrite decide_False by done. destruct section as [mapping|]; [done|].
    cbn [from_option mbind option_bind]. by rewrite lookup_empty.
  - intros entry. case_decide as Hraw.
    + by apply resolved_entry_None.
    + by apply resolved_entry_nonempty.
Qed.

Lemma buildConfigFromPack_closed_form_witness :
  own (events (buildConfigFromPack (Some proto_pack)))
  = {[ "session.idle" := {| path := "~/.claude/sounds/mew.wav" |} ]}.
Proof.
  apply (proj1 (proj2 (proj2 (proj2 (buildConfigFromPack_closed_form (Some proto_pack)))))).
  - reflexivity.
  - reflexivity.
Defined.



(** ** From a pack to the commands of the handlers *)
Section PackToCommands.

Context (HOME : option string) (pack : option SoundPack).

Lemma lookup_path_section (section : option (gmap string SoundEntry)) (k : string) :
  lookup_path (fill (pack_baseDir pack) section) k
  = path <$> ((section ≫= (.!! k)) ≫= resolved_entry (pack_baseDir pack)).
Proof.
  destruct section as [mapping|]; [apply lookup_path_fill|apply lookup_path_fill_None].
Qed.

Lemma lookup_path_unconfigured (section : option (gmap string SoundEntry)) (k : string) :
  (∀ mapping entry, section = Some mapping → mapping !! k = Some entry → rawPath entry = "") →
  lookup_path (fill (pack_baseDir pack) section) k = None.
Proof.
  intros Hun. rewrite lookup_path_section.
  destruct section as [mapping|]; [|done]. cbn.
  destruct (mapping !! k) as [entry|] eqn:Hk; [|done]. cbn.
  by rewrite (proj2 (resolved_entry_None _ entry) (Hun mapping entry eq_refl Hk)).
Qed.

Lemma lookup_path_events_cases (k : string) :
  lookup_path (events (buildConfigFromPack pack)) k =
    if decide (keys_length (fill (pack_baseDir pack) (pack_events pack)) = 0
               ∧ keys_length (fill (pack_baseDir pack) (pack_hooks pack)) = 0)
    then if decide (k = "session.idle") then Some "~/.claude/sounds/mew.wav"
         else lookup_path (fill (pack_baseDir pack) (pack_events pack)) k
    else lookup_path (fill (pack_baseDir pack) (pack_events pack)) k.
Proof.
  unfold buildConfigFromPack. cbv zeta. case_decide; cbn [events]; [|done].
  by rewrite lookup_path_assign.
Qed.

Lemma play_normalized (entry : SoundEntry) :
  rawPath entry ≠ "" →
  (if Str.truthy (normalizePath (pack_baseDir pack) entry)
   then [playSound HOME (normalizePath (pack_baseDir pack) entry)] else [])
  = [["clod"; "sfx"; "play"; toClodArg HOME (normalizePath (pack_baseDir pack) entry); "&"]].
Proof.
  intros Hraw.
  assert (Hn : normalizePath (pack_baseDir pack) entry ≠ "")
    by (by rewrite normalizePath_empty_iff).
  by rewrite (proj2 (truthy_true _) Hn).
Qed.

End PackToCommands.

(** X10. A hook handler ([tool.execute.before], [tool.execute.after],
    [permission.ask], [chat.message]) reads the resolved hooks under its
    own fixed name and nothing else.  When the pack has a hook entry with a
    non-empty raw path under that name, one call issues exactly one
    command, [clod sfx play arg &] with [arg] the [toClodArg] of the
    normalized path; when the pack has no hooks, no entry under that name,
    or an entry with an empty raw path, it issues none, whatever the
    events are. *)
Theorem hook_handler_commands (HOME : option string) (pack : option SoundPack) (name : string) :
  (∀ mapping entry,
     pack_hooks pack = Some mapping → mapping !! name = Some entry → rawPath entry ≠ "" →
     hook HOME (buildConfigFromPack pack) name
     = [["clod"; "sfx"; "play"; toClodArg HOME (normalizePath (pack_baseDir pack) entry); "&"]])
  ∧ ((∀ mapping entry,
        pack_hooks pack = Some mapping → mapping !! name = Some entry → rawPath entry = "") →
     hook HOME (buildConfigFromPack pack) name = [])
  ∧ tool_execute_before HOME (buildConfigFromPack pack)
    = hook HOME (buildConfigFromPack pack) "tool.execute.before"
  ∧ tool_execute_after HOME (buildConfigFromPack pack)
    = hook HOME (buildConfigFromPack pack) "tool.execute.after"
  ∧ permission_ask HOME (buildConfigFromPack pack)
    = hook HOME (buildConfigFromPack pack) "permission.ask"
  ∧ chat_message HOME (buildConfigFromPack pack)
    = hook HOME (buildConfigFromPack pack) "chat.message".
Proof.
  split; [|split; [|done]].
  - intros mapping entry Hsec Hk Hraw. unfold hook.
    rewrite (lookup_path_hooks pack mapping name entry Hsec Hk Hraw).
    by apply play_normalized.
  - intros Hun. unfold hook. rewrite lookup_path_hooks_fill.
    by rewrite lookup_path_unconfigured.
Qed.

Lemma hook_handler_commands_witness :
  permission_ask (Some "/home/u") (buildConfigFromPack (Some snd_pack)) = [].
Proof.
  apply (proj1 (proj2 (hook_handler_commands (Some "/home/u") (Some snd_pack) "permission.ask"))).
  intros mapping entry Hsec. discriminate Hsec.
Defined.

(** X11. The event handler, from the pack: when the pack has an event
    entry with a non-empty raw path under the type of the event, one call
    issues exactly one command, with the [toClodArg] of the normalized
    path; for a type other than ["session.idle"] without such an entry it
    issues none; for ["session.idle"] without such an entry it issues the
    default command [clod sfx play mew.wav &] when neither section has an
    entry that survives. *)
Theorem event_handler_commands (HOME : option string) (pack : option SoundPack) (event_type : string) :
  (∀ mapping entry,
     pack_events pack = Some mapping → mapping !! event_type = Some entry → rawPath entry ≠ "" →
     event HOME (buildConfigFromPack pack) event_type
     = [["clod"; "sfx"; "play"; toClodArg HOME (normalizePath (pack_baseDir pack) entry); "&"]])
  ∧ ((∀ mapping entry,
        pack_events pack = Some mapping → mapping !! event_type = Some entry →
        rawPath entry = "") →
     event_type ≠ "session.idle" →
     event HOME (buildConfigFromPack pack) event_type = [])
  ∧ (survivors (pack_baseDir pack) (pack_events pack) = ∅ →
     survivors (pack_baseDir pack) (pack_hooks pack) = ∅ →
     event HOME (buildConfigFromPack pack) "session.idle"
     = [["clod"; "sfx"; "play"; "mew.wav"; "&"]]).
Proof.
  split; [|split].
  - intros mapping entry Hsec Hk Hraw. unfold event.
    rewrite (lookup_path_events pack mapping event_type entry Hsec Hk Hraw).
    by apply play_normalized.
  - intros Hun Hidle. unfold event. rewrite lookup_path_events_cases.
    rewrite (decide_False _ _ Hidle), lookup_path_unconfigured by done.
    by case_decide.
  - intros Hev Hhk. unfold event. rewrite lookup_path_events_cases.
    rewrite decide_True by (by rewrite !keys_length_0, !fill_own_survivors).
    rewrite decide_True by done.
    change (Str.truthy "~/.claude/sounds/mew.wav") with true. cbv iota.
    unfold playSound.
    by rewrite (toClodArg_tilde HOME "mew.wav" : toClodArg HOME "~/.claude/sounds/mew.wav" = "mew.wav").
Qed.

Lemma event_handler_commands_witness :
  event (Some "/home/u") (buildConfigFromPack (Some snd_pack)) "session.idle"
  = [["clod"; "sfx"; "play"; "mew.wav"; "&"]]
  ∧ event (Some "/home/u") (buildConfigFromPack (Some snd_pack)) "session.error" = [].
Proof.
  pose proof (event_handler_commands (Some "/home/u") (Some snd_pack) "session.idle") as (Hone & _).
  pose proof (event_handler_commands (Some "/home/u") (Some snd_pack) "session.error") as (_ & Hnone & _).
  split.
  - apply (Hone {[ "session.idle" := Bare "mew.wav" ]} (Bare "mew.wav")); [reflexivity..|discriminate].
  - apply Hnone; [|discriminate].
    intros mapping entry [= <-] Hk. vm_compute in Hk. discriminate Hk.
Defined.

(** X12. The default sound is given up as soon as anything is configured:
    when some hook entry, or some other event entry, under a key other than
    ["__proto__"] has a non-empty raw path, and the pack has no event
    entry with a non-empty raw path under ["session.idle"], the event
    ["session.idle"] issues no command. *)
Theorem configured_pack_silences_default (HOME : option string) (pack : option SoundPack)
    (mapping : gmap string SoundEntry) (k : string) (entry : SoundEntry) :
  pack_hooks pack = Some mapping ∨ pack_events pack = Some mapping →
  mapping !! k = Some entry →
  k ≠ "__proto__" →
  rawPath entry ≠ "" →
  (∀ evs idle,
     pack_events pack = Some evs → evs !! "session.idle" = Some idle → rawPath idle = "") →
  event HOME (buildConfigFromPack pack) "session.idle" = [].
Proof.
  intros Hsec Hk Hproto Hraw Hidle. unfold event. rewrite lookup_path_events_cases.
  rewrite decide_False.
  - by rewrite lookup_path_unconfigured.
  - rewrite !keys_length_0, !fill_own_survivors. intros [Hev Hhk].
    assert (Hin : ∀ section, section = Some mapping →
              survivors (pack_baseDir pack) section !! k
              = Some {| path := normalizePath (pack_baseDir pack) entry |}).
    { intros section ->. unfold survivors. cbn [from_option id].
      rewrite lookup_omap, lookup_delete_ne, Hk by done. cbn.
      by apply resolved_entry_nonempty. }
    pose proof (Hin _ eq_refl) as Hfound.
    destruct Hsec as [Hsec|Hsec]; rewrite Hsec in *.
    + by rewrite Hhk, lookup_empty in Hfound.
    + by rewrite Hev, lookup_empty in Hfound.
Qed.

Lemma configured_pack_silences_default_witness :
  event (Some "/home/u")
    (buildConfigFromPack (Some
       {| schema := None; version := None; baseDir := None;
          opencode := Some {| oc_events := None;
                              oc_hooks := Some {[ "chat.message" := Bare "purr.wav" ]} |};
          claude := None |}))
    "session.idle" = [].
Proof.
  apply (configured_pack_silences_default _ _ {[ "chat.message" := Bare "purr.wav" ]}
           "chat.message" (Bare "purr.wav")).
  - by left.
  - reflexivity.
  - discriminate.
  - discriminate.
  - intros evs idle Hevs. discriminate Hevs.
Defined.

(** ** Exceptions of the run on a parsed document *)
Section Raises.

Lemma normalizePath_raises (baseDir entry : Dyn.json) :
  (raises baseDir entry = true → Dyn.normalizePath baseDir entry = Dyn.Throw Dyn.TypeError)
  ∧ (raises baseDir entry = false → ∃ path, Dyn.normalizePath baseDir entry = Dyn.Ok path).
Proof.
  assert (Hstr : ∀ s,
    (Str.truthy s && negb (rooted s)
       && match baseDir with Dyn.JStr _ => false | _ => true end = true →
     (if negb (Str.truthy s) then Dyn.Ok ""
      else if Str.startsWith s "/" || Str.startsWith s "~" then Dyn.Ok s
      else match baseDir with
           | Dyn.JStr b => if Str.endsWith b "/" then Dyn.Ok (b +:+ s) else Dyn.Ok (b +:+ "/" +:+ s)
           | _ => Dyn.Throw Dyn.TypeError
           end) = Dyn.Throw Dyn.TypeError)
    ∧ (Str.truthy s && negb (rooted s)
         && match baseDir with Dyn.JStr _ => false | _ => true end = false →
       ∃ path,
       (if negb (Str.truthy s) then Dyn.Ok ""
        else if Str.startsWith s "/" || Str.startsWith s "~" then Dyn.Ok s
        else match baseDir with
             | Dyn.JStr b => if Str.endsWith b "/" then Dyn.Ok (b +:+ s) else Dyn.Ok (b +:+ "/" +:+ s)
             | _ => Dyn.Throw Dyn.TypeError
             end) = Dyn.Ok path)).
  { intros s. unfold rooted.
    destruct (Str.truthy s); cbn [negb andb]; [|split; [done|eauto]].
    destruct (Str.startsWith s "/" || Str.startsWith s "~"); cbn [negb andb];
      [split; [done|eauto]|].
    destruct baseDir as [| | |b| |]; split; try done; eauto.
    intros _. destruct (Str.endsWith b "/"); eauto. }
  unfold Dyn.normalizePath, raises, raw_value.
  destruct entry as [|b|n|s| items|fields]; cbn.
  - split; [done|discriminate].
  - split; [discriminate|eauto].
  - split; [discriminate|eauto].
  - apply Hstr.
  - split; [discriminate|eauto].
  - destruct (Dyn.field "path" fields) as [[|b|n|s|items|fields']|]; cbn.
    + split; [discriminate|eauto].
    + destruct b; cbn; split; try done; eauto.
    + destruct (n =? 0)%Z; cbn; split; try done; eauto.
    + apply Hstr.
    + split; [done|discriminate].
    + split; [done|discriminate].
    + split; [discriminate|eauto].
Qed.

Lemma normalizePath_raises_true (baseDir entry : Dyn.json) (e : Dyn.exn) :
  Dyn.normalizePath baseDir entry = Dyn.Throw e ↔ e = Dyn.TypeError ∧ raises baseDir entry = true.
Proof.
  destruct (normalizePath_raises baseDir entry) as [Ht Hf].
  destruct (raises baseDir entry).
  - rewrite (Ht eq_refl). split; [by intros [= <-]|by intros [-> _]].
  - destruct (Hf eq_refl) as [path ->]. split; [done|by intros [_ ?]].
Qed.

Lemma fill_loop_raises (baseDir : Dyn.json) (es : list (string * Dyn.json)) (obj : Mapping) (e : Dyn.exn) :
  Dyn.fill_loop baseDir obj es = Dyn.Throw e ↔
  e = Dyn.TypeError ∧ ∃ key entry, (key, entry) ∈ es ∧ raises baseDir entry = true.
Proof.
  revert obj. induction es as [|[key entry] es IH]; intros obj.
  - split; [done|]. by intros (_ & k & v & []%elem_of_nil & _).
  - cbn [Dyn.fill_loop].
    destruct (normalizePath_raises baseDir entry) as [Ht Hf].
    destruct (raises baseDir entry) eqn:Hr.
    + rewrite (Ht eq_refl). cbn. split.
      * intros [= <-]. split; [done|]. exists key, entry. split; [by left|done].
      * by intros [-> _].
    + destruct (Hf eq_refl) as [path ->]. cbn. rewrite IH. split.
      * intros (-> & k & v & Hin & Hv). split; [done|]. exists k, v. split; [by right|done].
      * intros (-> & k & v & Hin & Hv). split; [done|].
        apply elem_of_cons in Hin as [[= -> ->]|Hin]; [congruence|]. eauto.
Qed.

Lemma fill_loop_ok (baseDir : Dyn.json) (es : list (string * Dyn.json)) (obj : Mapping) :
  (∀ key entry, (key, entry) ∈ es → raises baseDir entry = false) →
  ∃ obj', Dyn.fill_loop baseDir obj es = Dyn.Ok obj'.
Proof.
  intros Hall. destruct (Dyn.fill_loop baseDir obj es) as [obj'|e] eqn:E; [eauto|].
  apply fill_loop_raises in E as (_ & k & v & Hin & Hv).
  rewrite (Hall k v Hin) in Hv. done.
Qed.

Lemma fill_raises (baseDir : Dyn.json) (section : Dyn.value) (e : Dyn.exn) :
  Dyn.fill baseDir section = Dyn.Throw e ↔
  e = Dyn.TypeError
  ∧ ∃ j key entry, section = Some j ∧ Dyn.truthy (Some j) = true
                   ∧ (key, entry) ∈ Dyn.Object_entries j ∧ raises baseDir entry = true.
Proof.
  unfold Dyn.fill. destruct section as [j|].
  - destruct (Dyn.truthy (Some j)) eqn:Ht.
    + rewrite fill_loop_raises. split.
      * intros (-> & k & v & Hin & Hv). split; [done|]. by exists j, k, v.
      * intros (-> & j' & k & v & [= <-] & _ & Hin & Hv). split; [done|]. by exists k, v.
    + split; [done|]. intros (_ & j' & k & v & [= <-] & Ht' & _). congruence.
  - split; [done|]. by intros (_ & j' & k & v & [=] & _).
Qed.

End Raises.

(** X13. On a parsed document [normalizePath] raises nothing but a
    [TypeError], and raises it exactly for an entry that is [null], an
    entry whose raw path is truthy and not a string, and an entry whose raw
    path is a non-empty string starting with neither ["/"] nor ["~"] when
    the base directory is not a string.  Every other entry of a wrong type
    (a number, a boolean, an array, an object without [path] or with a
    falsy one) is dropped like an empty one. *)
Theorem normalizePath_raises_exactly (baseDir entry : Dyn.json) :
  (∀ e, Dyn.normalizePath baseDir entry = Dyn.Throw e ↔
        e = Dyn.TypeError ∧ raises baseDir entry = true)
  ∧ (∀ path, Dyn.normalizePath baseDir entry = Dyn.Ok path → raises baseDir entry = false)
  ∧ (raises baseDir entry = false → Dyn.truthy (raw_value entry) = false →
       Dyn.normalizePath baseDir entry = Dyn.Ok "")
  ∧ ((∃ b, entry = Dyn.JBool b) ∨ (∃ n, entry = Dyn.JNum n) ∨ (∃ items, entry = Dyn.JArr items)
     ∨ (∃ fields, entry = Dyn.JObj fields ∧ Dyn.truthy (Dyn.field "path" fields) = false) →
       Dyn.normalizePath baseDir entry = Dyn.Ok "").
Proof.
  split; [|split; [|split]].
  - intros e. apply normalizePath_raises_true.
  - intros path Hok. destruct (raises baseDir entry) eqn:Hr; [|done].
    rewrite (proj1 (normalizePath_raises baseDir entry) Hr) in Hok. done.
  - unfold Dyn.normalizePath, raises, raw_value.
    destruct entry as [|b|n|s|items|fields]; cbn; try done.
    + intros _ ->. done.
    + intros _ Hfalsy. by rewrite Hfalsy.
  - intros [[b ->]|[[n ->]|[[items ->]|(fields & -> & Hfalsy)]]]; try done.
    unfold Dyn.normalizePath. cbn. by rewrite Hfalsy.
Qed.

Lemma normalizePath_raises_exactly_witness :
  Dyn.normalizePath (Dyn.JStr "/snd") (Dyn.JNum 3) = Dyn.Ok ""
  ∧ raises (Dyn.JNum 3) (Dyn.JStr "mew.wav") = true.
Proof.
  pose proof (normalizePath_raises_exactly (Dyn.JStr "/snd") (Dyn.JNum 3)) as (_ & _ & _ & Hdrop).
  pose proof (normalizePath_raises_exactly (Dyn.JNum 3) (Dyn.JStr "mew.wav")) as (Hiff & _).
  split.
  - apply Hdrop. right. left. by exists 3%Z.
  - apply (proj1 (Hiff Dyn.TypeError)). reflexivity.
Defined.

(** X14. [buildConfigFromPack] fails exactly when one entry fails: on a
    parsed document it raises (a [TypeError], never anything else) if and
    only if the [events] or the [hooks] section is truthy and one of its
    entries is one on which [normalizePath] raises; one such entry loses
    the whole configuration, and without one a configuration is
    returned. *)
Theorem buildConfigFromPack_raises_exactly (doc : Dyn.json) :
  let bad :=
    ∃ name j key entry,
      (name = "events" ∨ name = "hooks")
      ∧ document_section doc name = Some j
      ∧ Dyn.truthy (Some j) = true
      ∧ (key, entry) ∈ Dyn.Object_entries j
      ∧ raises (document_baseDir doc) entry = true in
  (∀ e, Dyn.buildConfigFromPack doc = Dyn.Throw e ↔ e = Dyn.TypeError ∧ bad)
  ∧ ((∃ cfg, Dyn.buildConfigFromPack doc = Dyn.Ok cfg) ↔ ¬ bad).
Proof.
  intros bad.
  assert (Hthrow : ∀ e, Dyn.buildConfigFromPack doc = Dyn.Throw e ↔ e = Dyn.TypeError ∧ bad).
  { intros e. unfold Dyn.buildConfigFromPack. fold (document_baseDir doc).
    fold (document_section doc "events"). fold (document_section doc "hooks").
    destruct (Dyn.fill (document_baseDir doc) (document_section doc "events")) as [evs|e1] eqn:Eev.
    - cbn. destruct (Dyn.fill (document_baseDir doc) (document_section doc "hooks")) as [hks|e2] eqn:Ehk.
      + cbn. split.
        * by case_decide.
        * intros (-> & name & j & k & v & [-> | ->] & Hsec & Ht & Hin & Hv).
          -- assert (Dyn.fill (document_baseDir doc) (document_section doc "events")
                     = Dyn.Throw Dyn.TypeError) as Hcontra
               by (apply fill_raises; split; [done|]; by exists j, k, v).
             congruence.
          -- assert (Dyn.fill (document_baseDir doc) (document_section doc "hooks")
                     = Dyn.Throw Dyn.TypeError) as Hcontra
               by (apply fill_raises; split; [done|]; by exists j, k, v).
             congruence.
      + cbn. apply fill_raises in Ehk as (-> & j & k & v & Hsec & Ht & Hin & Hv). split.
        * intros [= <-]. split; [done|]. exists "hooks", j, k, v. auto.
        * by intros [-> _].
    - cbn. apply fill_raises in Eev as (-> & j & k & v & Hsec & Ht & Hin & Hv). split.
      + intros [= <-]. split; [done|]. exists "events", j, k, v. auto.
      + by intros [-> _]. }
  split; [done|]. split.
  - intros [cfg Hcfg] Hbad.
    assert (Dyn.buildConfigFromPack doc = Dyn.Throw Dyn.TypeError) by (by apply Hthrow).
    congruence.
  - intros Hgood. destruct (Dyn.buildConfigFromPack doc) as [cfg|e] eqn:E; [eauto|].
    destruct (proj1 (Hthrow e) eq_refl) as [_ Hbad]. by destruct Hgood.
Qed.

Lemma buildConfigFromPack_raises_exactly_witness :
  ∃ cfg, Dyn.buildConfigFromPack snd_document = Dyn.Ok cfg.
Proof.
  apply (proj2 (buildConfigFromPack_raises_exactly snd_document)).
  intros (name & j & key & entry & [-> | ->] & Hsec & _ & Hin & Hbad).
  - vm_compute in Hsec. injection Hsec as <-. cbn in Hin.
    apply list_elem_of_singleton in Hin. injection Hin as -> ->.
    vm_compute in Hbad. discriminate Hbad.
  - vm_compute in Hsec. discriminate Hsec.
Defined.

(** ** Documents without entries, and the plugin as a whole *)
Section WholePlugin.

Lemma fill_no_entries (baseDir : Dyn.json) (section : Dyn.value) :
  Dyn.truthy section = false ∨ (∃ j, section = Some j ∧ Dyn.Object_entries j = []) →
  Dyn.fill baseDir section = Dyn.Ok empty_mapping.
Proof.
  unfold Dyn.fill. intros [Hfalsy|(j & -> & Hnone)].
  - destruct section as [j|]; [|done]. by rewrite Hfalsy.
  - rewrite Hnone. by destruct (Dyn.truthy (Some j)).
Qed.

Lemma buildConfigFromPack_no_entries (doc : Dyn.json) :
  (∀ name, name = "events" ∨ name = "hooks" →
     Dyn.truthy (document_section doc name) = false
     ∨ ∃ j, document_section doc name = Some j ∧ Dyn.Object_entries j = []) →
  Dyn.buildConfigFromPack doc = Dyn.Ok default_config.
Proof.
  intros Hnone. unfold Dyn.buildConfigFromPack.
  fold (document_section doc "events"). fold (document_section doc "hooks").
  rewrite !fill_no_entries by (apply Hnone; auto). reflexivity.
Qed.

Lemma event_default_config (HOME : option string) (event_type : string) :
  event HOME default_config event_type =
    if decide (event_type = "session.idle") then [["clod"; "sfx"; "play"; "mew.wav"; "&"]] else [].
Proof.
  unfold event. destruct (decide (event_type = "session.idle")) as [->|Hidle].
  - change (lookup_path (events default_config) "session.idle")
      with (Some "~/.claude/sounds/mew.wav").
    change (Str.truthy "~/.claude/sounds/mew.wav") with true. cbv iota. unfold playSound.
    by rewrite (toClodArg_tilde HOME "mew.wav" : toClodArg HOME "~/.claude/sounds/mew.wav" = "mew.wav").
  - assert (lookup_path (events default_config) event_type = None) as ->; [|done].
    unfold lookup_path, default_config. cbn [events own proto].
    rewrite lookup_singleton_ne by done. by case_decide.
Qed.

Lemma loadSoundPack_agree (HOME : option string) (fs fs' : Dyn.filesystem) (paths : list string) :
  (∀ p, p ∈ paths → fs (expandTilde HOME p) = fs' (expandTilde HOME p)) →
  Dyn.loadSoundPack HOME fs paths = Dyn.loadSoundPack HOME fs' paths.
Proof.
  induction paths as [|p paths IH]; intros Hagree; [done|].
  cbn [Dyn.loadSoundPack]. unfold Dyn.try_candidate.
  rewrite <- (Hagree p) by (by left).
  rewrite IH by (intros q Hq; apply Hagree; by right). done.
Qed.

End WholePlugin.

(** X15. A document without entries resolves to the default configuration,
    whatever else it holds: when each of the [events] and [hooks] sections
    is missing, falsy, or a value without entries (a number, [true], an
    empty object, array or string), [buildConfigFromPack] returns the
    default configuration and the base directory is never looked at.  So
    does a pack file that holds a JSON array: [loadSoundPack] accepts it
    as the pack, the candidates after it are not consulted, and the
    resolution returns the default configuration. *)
Theorem document_without_entries_is_default (doc : Dyn.json) :
  ((∀ name, name = "events" ∨ name = "hooks" →
      Dyn.truthy (document_section doc name) = false
      ∨ ∃ j, document_section doc name = Some j ∧ Dyn.Object_entries j = []) →
   Dyn.buildConfigFromPack doc = Dyn.Ok default_config)
  ∧ (∀ items, Dyn.buildConfigFromPack (Dyn.JArr items) = Dyn.Ok default_config)
  ∧ (∀ HOME (fs : Dyn.filesystem) before p after items,
       (∀ q, q ∈ before → Dyn.rejected HOME fs q) →
       fs (expandTilde HOME p) = Dyn.Ok (Dyn.JArr items) →
       Dyn.resolve HOME fs (before ++ p :: after)%list = Dyn.Ok default_config).
Proof.
  split; [apply buildConfigFromPack_no_entries|]. split.
  - intros items. apply buildConfigFromPack_no_entries. intros name _. by left.
  - intros HOME fs before p after items Hbefore Hp. unfold Dyn.resolve.
    rewrite (loadSoundPack_first_accepted HOME fs before after p (Dyn.JArr items)) by done.
    reflexivity.
Qed.

Lemma document_without_entries_is_default_witness :
  Dyn.buildConfigFromPack
    (Dyn.JObj [ ("baseDir", Dyn.JNum 7);
                ("opencode", Dyn.JObj [ ("events", Dyn.JObj []); ("hooks", Dyn.JBool true) ]) ])
  = Dyn.Ok default_config.
Proof.
  apply (proj1 (document_without_entries_is_default _)).
  intros name [-> | ->]; right.
  - by exists (Dyn.JObj []).
  - by exists (Dyn.JBool true).
Defined.

(** X16. [loadSoundPack] reads no file but the candidates, each under its
    expanded path, and none behind the first one it accepts: two file
    systems that agree on the expanded candidates give the same result,
    and when a candidate is accepted, what the file systems hold for the
    candidates behind it, and which candidates these are, does not
    matter. *)
Theorem loadSoundPack_reads_only_candidates (HOME : option string) (fs fs' : Dyn.filesystem) :
  (∀ paths,
     (∀ p, p ∈ paths → fs (expandTilde HOME p) = fs' (expandTilde HOME p)) →
     Dyn.loadSoundPack HOME fs paths = Dyn.loadSoundPack HOME fs' paths)
  ∧ (∀ before p after after' data,
       (∀ q, q ∈ before ∨ q = p → fs (expandTilde HOME q) = fs' (expandTilde HOME q)) →
       (∀ q, q ∈ before → Dyn.rejected HOME fs q) →
       fs (expandTilde HOME p) = Dyn.Ok data →
       Dyn.is_object data = true →
       Dyn.loadSoundPack HOME fs (before ++ p :: after)%list = Dyn.Ok data
       ∧ Dyn.loadSoundPack HOME fs' (before ++ p :: after')%list = Dyn.Ok data).
Proof.
  split; [apply loadSoundPack_agree|].
  intros before p after after' data Hagree Hbefore Hp Hdata. split.
  - by apply loadSoundPack_first_accepted.
  - apply loadSoundPack_first_accepted; [|by rewrite <- Hagree by auto|done].
    intros q Hq data' Hdata'. rewrite <- Hagree in Hdata' by auto.
    by apply (Hbefore q Hq).
Qed.

Lemma loadSoundPack_reads_only_candidates_witness :
  Dyn.loadSoundPack (Some "/home/u") example_fs (Dyn.candidates "/proj" "/cfg")
  = Dyn.loadSoundPack (Some "/home/u")
      (λ file, if decide (file = "/elsewhere.json") then Dyn.Ok Dyn.JNull else example_fs file)
      (Dyn.candidates "/proj" "/cfg").
Proof.
  apply (proj1 (loadSoundPack_reads_only_candidates (Some "/home/u") example_fs _)).
  intros p [->|[->|[->|[]%elem_of_nil]%elem_of_cons]%elem_of_cons]%elem_of_cons; reflexivity.
Defined.

(** X17. The plugin as a whole.  [MyPlugin] fails only when the resolution
    does.  When no candidate gives a pack, it returns handlers that issue
    [clod sfx play mew.wav &] for the event ["session.idle"] and nothing
    for every other event and for every hook.  When the loaded document is
    of the declared type, it returns the handlers of the configuration
    built from that pack. *)
Theorem MyPlugin_handlers (HOME : option string) (fs : Dyn.filesystem) (root config : string) :
  (∀ e, MyPlugin HOME fs root config = Dyn.Throw e ↔
        Dyn.resolve HOME fs (Dyn.candidates root config) = Dyn.Throw e)
  ∧ ((∀ p, p ∈ Dyn.candidates root config → Dyn.rejected HOME fs p) →
     ∃ handlers,
       MyPlugin HOME fs root config = Dyn.Ok handlers
       ∧ (∀ event_type,
            on_event handlers event_type =
              if decide (event_type = "session.idle")
              then [["clod"; "sfx"; "play"; "mew.wav"; "&"]] else [])
       ∧ on_tool_execute_before handlers = []
       ∧ on_tool_execute_after handlers = []
       ∧ on_permission_ask handlers = []
       ∧ on_chat_message handlers = [])
  ∧ (∀ doc pack,
       Dyn.loadSoundPack HOME fs (Dyn.candidates root config) = Dyn.Ok doc →
       Typed.as_SoundPack doc = Some pack →
       ∃ handlers,
         MyPlugin HOME fs root config = Dyn.Ok handlers
         ∧ (∀ event_type,
              on_event handlers event_type = event HOME (buildConfigFromPack (Some pack)) event_type)
         ∧ on_tool_execute_before handlers
           = hook HOME (buildConfigFromPack (Some pack)) "tool.execute.before"
         ∧ on_tool_execute_after handlers
           = hook HOME (buildConfigFromPack (Some pack)) "tool.execute.after"
         ∧ on_permission_ask handlers
           = hook HOME (buildConfigFromPack (Some pack)) "permission.ask"
         ∧ on_chat_message handlers
           = hook HOME (buildConfigFromPack (Some pack)) "chat.message").
Proof.
  split; [|split].
  - intros e. unfold MyPlugin.
    destruct (Dyn.resolve HOME fs (Dyn.candidates root config)); cbn;
      [split; intros H; discriminate H|split; intros [= ->]; reflexivity].
  - intros Hall. unfold MyPlugin, Dyn.resolve.
    rewrite loadSoundPack_all_rejected by done. cbn.
    eexists. split; [reflexivity|]. cbn [on_event on_tool_execute_before
      on_tool_execute_after on_permission_ask on_chat_message].
    split; [apply event_default_config|]. done.
  - intros doc pack Hdoc Hpack. unfold MyPlugin, Dyn.resolve.
    rewrite Hdoc. cbn. rewrite (buildConfigFromPack_typed doc pack Hpack). cbn.
    eexists. split; [reflexivity|]. done.
Qed.

Lemma MyPlugin_handlers_witness :
  ∃ handlers,
    MyPlugin (Some "/home/u") example_fs "/proj" "/cfg" = Dyn.Ok handlers
    ∧ on_event handlers "session.idle" = [["clod"; "sfx"; "play"; "mew.wav"; "&"]].
Proof.
  destruct (proj2 (proj2 (MyPlugin_handlers (Some "/home/u") example_fs "/proj" "/cfg"))
              snd_document snd_pack eq_refl eq_refl) as (handlers & Hplugin & Hevent & _).
  exists handlers. split; [exact Hplugin|]. rewrite Hevent. reflexivity.
Defined.

(** X18. The simple plugin reacts to the event ["session.idle"] and to no
    other: for ["session.idle"] one call of its handler issues
    [clod sfx play ~/.claude/sounds/mew.wav], for every other event type
    none.  These are the events the full plugin reacts to when there is no
    pack, with one command each. *)
Theorem simple_plugin_commands (HOME : option string) (event_type : string) :
  Simple.MyPlugin_event event_type
  = (if decide (event_type = "session.idle")
     then [["clod"; "sfx"; "play"; "~/.claude/sounds/mew.wav"]] else [])
  ∧ length (Simple.MyPlugin_event event_type) = length (event HOME default_config event_type).
Proof.
  assert (H : Simple.MyPlugin_event event_type
              = if decide (event_type = "session.idle")
                then [["clod"; "sfx"; "play"; "~/.claude/sounds/mew.wav"]] else []).
  { unfold Simple.MyPlugin_event. rewrite simple_event_lookup. unfold Simple.soundConfig.
    case_decide as Hidle.
    - subst. by rewrite lookup_singleton_eq.
    - by rewrite lookup_singleton_ne. }
  split; [done|]. rewrite H, event_default_config. by case_decide.
Qed.
